(** * A shallow embedding of [src/ul2/src/momo1/model.py]

    Tensors are modelled as records of a shape and an index function;
    floating point values are modelled by real numbers, and the value
    [float("-inf")] used by the attention bias by an extended type [ext].
    Integer tensors given as inputs ([input_ids], masks) are rectangular
    lists of rows of [Z]. Python exceptions are the [exn] type. *)

From Stdlib Require Import String ZArith Arith Lia Reals Lra QArith Qreals List.
Import ListNotations.
Open Scope nat_scope.

(** ** Exceptions and the module monad *)

Inductive exn :=
| AssertionError
| IndexError
| ZeroDivisionError
| AttributeError
| RuntimeError.

(** ** 4-D tensors with PyTorch broadcasting *)

Record T4 (A : Type) := mkT4 {
  d0 : nat; d1 : nat; d2 : nat; d3 : nat;
  at4 : nat -> nat -> nat -> nat -> A
}.
Arguments mkT4 {A}.
Arguments d0 {A}. Arguments d1 {A}. Arguments d2 {A}. Arguments d3 {A}.
Arguments at4 {A}.

(** Broadcast of two sizes: equal, or one of them is 1. *)
Definition bdim (a b : nat) : option nat :=
  if a =? b then Some a
  else if a =? 1 then Some b
  else if b =? 1 then Some a
  else None.

(** A dimension of size 1 is read at index 0. *)
Definition bidx (d i : nat) : nat := if d =? 1 then 0 else i.

(** An elementwise binary operation with broadcasting; [None] is the
    [RuntimeError] of incompatible shapes. *)
Definition broadcast2 {A B C : Type} (f : A -> B -> C) (x : T4 A) (y : T4 B)
  : option (T4 C) :=
  match bdim (d0 x) (d0 y), bdim (d1 x) (d1 y),
        bdim (d2 x) (d2 y), bdim (d3 x) (d3 y) with
  | Some e0, Some e1, Some e2, Some e3 =>
      Some (mkT4 e0 e1 e2 e3 (fun i j k l =>
        f (at4 x (bidx (d0 x) i) (bidx (d1 x) j) (bidx (d2 x) k) (bidx (d3 x) l))
          (at4 y (bidx (d0 y) i) (bidx (d1 y) j) (bidx (d2 y) k) (bidx (d3 y) l))))
  | _, _, _, _ => None
  end.

(** [t[:, :, :n, :n]]: Python slicing clamps to the size. *)
Definition slice2 {A : Type} (t : T4 A) (n : nat) : T4 A :=
  mkT4 (d0 t) (d1 t) (Nat.min n (d2 t)) (Nat.min n (d3 t)) (at4 t).

(** Values of a float tensor, with [-inf]. *)
Inductive ext := Fin (r : R) | NegInf.

Definition is_fin (e : ext) : bool :=
  match e with Fin _ => true | NegInf => false end.

(** ** 2-D integer tensors given as rectangular lists of rows *)

Definition entry (m : list (list Z)) (b k : nat) : Z := nth k (nth b m []) 0%Z.

(** [m.shape == torch.Size([B, S])]. *)
Definition shape_is (m : list (list Z)) (B S : nat) : bool :=
  (length m =? B) && forallb (fun row => length row =? S) m.

(** [torch.all(m.bool())]. *)
Definition all_nonzero (m : list (list Z)) : bool :=
  forallb (forallb (fun v => negb (v =? 0)%Z)) m.

(** [m.bool().unsqueeze(1).unsqueeze(1)]: shape [B x 1 x 1 x S]. *)
Definition unsqueeze_mask (m : list (list Z)) (S : nat) : T4 bool :=
  mkT4 (length m) 1 1 S (fun b _ _ k => negb (entry m b k =? 0)%Z).

(** ** [alibi_bias] *)

(** [torch.arange(1 - seq_len, 1)[i]]. *)
Definition arange_from (seq_len i : nat) : R := INR i + (1 - INR seq_len).

(** [1. / (2 ** m[h])] with [m = arange(1, n_heads + 1) * (alibi_bias_max / n_heads)].
    The template is computed in exact reals; the module builds it in
    bfloat16, whose rounding (positions beyond 256, the slopes) and
    overflow of [2 ** m] are not modelled, so only properties that do not
    depend on the magnitudes (which entries are masked, exact copies of
    rows) are read off it. *)
Definition alibi_slope (n_heads : nat) (alibi_bias_max : R) (h : nat) : R :=
  / Rpower 2 ((INR h + 1) * (alibi_bias_max / INR n_heads)).

Definition alibi_bias (n_heads seq_len : nat) (full : bool) (alibi_bias_max : R)
  : exn + T4 R :=
  if n_heads =? 0 then inl ZeroDivisionError   (* alibi_bias_max / n_heads *)
  else if full then
    inr (mkT4 1 n_heads seq_len seq_len (fun _ h q k =>
      (- Rabs (arange_from seq_len k - arange_from seq_len q))
        * alibi_slope n_heads alibi_bias_max h)%R)
  else
    inr (mkT4 1 n_heads 1 seq_len (fun _ h _ k =>
      (arange_from seq_len k * alibi_slope n_heads alibi_bias_max h)%R)).

(** ** Configuration, parameters and the module state *)


Record Cfg := mkCfg {
  cfg_name : string;
  vocab_size : nat;
  d_model : nat;
  n_heads : nat;
  n_layers : nat;
  max_seq_len : nat;
  cfg_alibi : bool;            (* cfg.get("alibi", False) *)
  cfg_alibi_bias_max : R;      (* cfg.get("alibi_bias_max", 8) *)
  cfg_embedding_fraction : Q   (* cfg.get("embedding_fraction", 1) *)
}.

Record LNParams := mkLN { ln_weight : list R; ln_bias : list R }.
Record LinearParams := mkLinear { lin_weight : list (list R); lin_bias : option (list R) }.

(** The weights of a [GPTBlock]; [attn_w] are the weight tensors of the
    attention module (a library [nn.MultiheadAttention] or [FlashMHA]). *)
Record BlockParams := mkBlock {
  ln_1 : LNParams;
  attn_w : list (list (list R));
  ln_2 : LNParams;
  mlp_up : LinearParams;
  mlp_down : LinearParams
}.

(** The learned parameters of [MosaicModel]: [transformer.wte],
    [transformer.wpe] (absent with alibi), [transformer.blocks],
    [transformer.ln_f]. *)
Record Params := mkParams {
  wte : list (list R);
  wpe : option (list (list R));
  blocks : list BlockParams;
  ln_f : LNParams
}.

Inductive buffer := BufR (t : T4 R) | BufB (t : T4 bool).

(** A [MosaicModel] instance: its configuration, parameters and the
    buffers registered with [register_buffer], in registration order. *)
Record Model := mkModel {
  cfg : Cfg;
  params : Params;
  buffers : list (string * buffer)
}.

Definition alibi (m : Model) : bool := cfg_alibi (cfg m).
Definition embedding_fraction (m : Model) : Q := cfg_embedding_fraction (cfg m).

Definition register_buffer (name : string) (v : buffer) (m : Model) : Model :=
  mkModel (cfg m) (params m) (buffers m ++ [(name, v)]).

Definition zeros_like (t : T4 R) : T4 R :=
  mkT4 (d0 t) (d1 t) (d2 t) (d3 t) (fun _ _ _ _ => 0%R).

(** [torch.tril(torch.ones([L, L], dtype=bool)).unsqueeze(0).unsqueeze(0)]. *)
Definition causal_template (L : nat) : T4 bool :=
  mkT4 1 1 L L (fun _ _ q k => k <=? q).

(** [MosaicModel.__init__]. The parameter values drawn by [param_init_fn]
    are the argument [p]; [wpe] is created only without alibi. *)
Definition init (c : Cfg) (p : Params) : exn + Model :=
  if negb (String.eqb (cfg_name c) "mosaic_model") then inl AssertionError
  else if negb (negb (Qle_bool (cfg_embedding_fraction c) 0)
                && Qle_bool (cfg_embedding_fraction c) 1) then inl AssertionError
  else
    let p := mkParams (wte p) (if cfg_alibi c then None else wpe p)
                      (blocks p) (ln_f p) in
    match alibi_bias (n_heads c) (max_seq_len c) true (cfg_alibi_bias_max c) with
    | inl e => inl e
    | inr am =>
        inr (register_buffer "causal_mask" (BufB (causal_template (max_seq_len c)))
              (register_buffer "zeros_mask" (BufR (zeros_like am))
                (register_buffer "alibi_mask" (BufR am) (mkModel c p []))))
    end.

(** A small configuration used to exercise the model: 2 heads, a maximum
    sequence length of 4, alibi on. *)
Definition cfg_ex : Cfg :=
  mkCfg "mosaic_model" 10 4 2 1 4 true 8%R 1%Q.

Definition params_ex : Params := mkParams [] None [] (mkLN [] []).

(** Parameters with a [3 x 4] token-embedding matrix. *)
Definition params_tied : Params :=
  mkParams [[1;0;0;0];[0;1;0;0];[0;0;1;0]]%R None [] (mkLN [] []).

(** ** A state and exception monad over the module *)

Definition M (A : Type) : Type := Model -> exn + (A * Model).

Definition ret {A : Type} (a : A) : M A := fun m => inr (a, m).
Definition bind {A B : Type} (c : M A) (f : A -> M B) : M B :=
  fun m => match c m with inl e => inl e | inr (a, m') => f a m' end.
Definition raise {A : Type} (e : exn) : M A := fun _ => inl e.
Definition gets {A : Type} (f : Model -> A) : M A := fun m => inr (f m, m).

Notation "x <- c1 ;; c2" := (bind c1 (fun x => c2))
  (at level 61, c1 at next level, right associativity).
Notation "c1 ;;; c2" := (bind c1 (fun _ => c2))
  (at level 61, right associativity).

Definition assert (b : bool) : M unit := if b then ret tt else raise AssertionError.

(** A shape error of a tensor operation. *)
Definition lift {A : Type} (o : option A) : M A :=
  match o with Some a => ret a | None => raise RuntimeError end.

Fixpoint lookup_buffer (name : string) (l : list (string * buffer)) : option buffer :=
  match l with
  | [] => None
  | (n, v) :: r => if String.eqb n name then Some v else lookup_buffer name r
  end.

(** [self.<name>] for a float and a bool buffer. *)
Definition buf_R (name : string) : M (T4 R) :=
  b <- gets (fun m => lookup_buffer name (buffers m)) ;;
  match b with
  | Some (BufR t) => ret t
  | Some (BufB _) => raise RuntimeError
  | None => raise AttributeError
  end.
Definition buf_B (name : string) : M (T4 bool) :=
  b <- gets (fun m => lookup_buffer name (buffers m)) ;;
  match b with
  | Some (BufB t) => ret t
  | Some (BufR _) => raise RuntimeError
  | None => raise AttributeError
  end.

(** ** [MosaicModel.build_attn_bias] *)

Definition where_ninf (c : bool) (v : R) : ext := if c then Fin v else NegInf.

Definition build_attn_bias (batch_size seq_length : nat)
    (attention_mask bidirectional_mask : option (list (list Z))) : M (T4 ext) :=
  al <- gets alibi ;;
  bias <- (if al then buf_R "alibi_mask" else buf_R "zeros_mask") ;;
  let bias := slice2 bias seq_length in
  causal <- buf_B "causal_mask" ;;
  mask <- match bidirectional_mask with
          | None => ret (slice2 causal seq_length)
          | Some bm =>
              assert (shape_is bm batch_size seq_length) ;;;
              lift (broadcast2 orb (slice2 causal seq_length)
                                   (unsqueeze_mask bm seq_length))
          end ;;
  mask <- match attention_mask with
          | None => ret mask
          | Some am =>
              if all_nonzero am then ret mask
              else assert (shape_is am batch_size seq_length) ;;;
                   lift (broadcast2 andb mask (unsqueeze_mask am seq_length))
          end ;;
  lift (broadcast2 where_ninf mask bias).

(** The entry of the alibi template at head [h], query [q], key [k]. *)
Definition alibi_value (c : Cfg) (h q k : nat) : R :=
  ((- Rabs (arange_from (max_seq_len c) k - arange_from (max_seq_len c) q))
     * alibi_slope (n_heads c) (cfg_alibi_bias_max c) h)%R.

(** The value the bias template holds at an allowed pair. *)
Definition template_value (c : Cfg) (h q k : nat) : R :=
  if cfg_alibi c then alibi_value c h q k else 0%R.

(** Whether key [k] is visible from query [q] in batch element [b]: the
    causal/bidirectional combination, then the padding restriction. *)
Definition allowed (am bm : option (list (list Z))) (b q k : nat) : bool :=
  ((k <=? q) || match bm with
                | Some x => negb (entry x b k =? 0)%Z
                | None => false
                end)
  && match am with
     | Some x => if all_nonzero x then true else negb (entry x b k =? 0)%Z
     | None => true
     end.

(** The batch size of the bias: 1 unless a per-batch mask was combined in. *)
Definition batch_dim (B : nat) (am bm : option (list (list Z))) : nat :=
  match bm, am with
  | None, None => 1
  | None, Some x => if all_nonzero x then 1 else B
  | Some _, _ => B
  end.

(** A tensor described by its entries in range. *)
Definition describes {A : Type} (t : T4 A) (e0 e1 e2 e3 : nat)
    (g : nat -> nat -> nat -> nat -> A) : Prop :=
  d0 t = e0 /\ d1 t = e1 /\ d2 t = e2 /\ d3 t = e3 /\
  forall i j k l, i < e0 -> j < e1 -> k < e2 -> l < e3 -> at4 t i j k l = g i j k l.

(** ** Dense layers *)

(** Activations of shape [B x S x d]. *)
Definition Hid := list (list (list R)).

Definition dot (u v : list R) : R :=
  fold_right Rplus 0%R (map (fun ab => (fst ab * snd ab)%R) (combine u v)).

Definition vadd (u v : list R) : list R := map (fun ab => (fst ab + snd ab)%R) (combine u v).

(** [F.linear] on one row: [row @ W^T + b]. *)
Definition linear_row (W : list (list R)) (b : option (list R)) (row : list R) : list R :=
  let y := map (fun w => dot row w) W in
  match b with None => y | Some bv => vadd y bv end.

Definition map_rows (f : list R -> list R) (x : Hid) : Hid := map (map f) x.

Definition hadd (x y : Hid) : Hid :=
  map (fun xy => map (fun uv => vadd (fst uv) (snd uv)) (combine (fst xy) (snd xy)))
      (combine x y).

(** [tok_emb + pos_emb], [pos_emb] of shape [1 x S x d] broadcast over the batch. *)
Definition add_pos (tok pos : Hid) : Hid :=
  map (fun t => map (fun uv => vadd (fst uv) (snd uv)) (combine t (hd [] pos))) tok.

(** [nn.Embedding] lookup; an index out of range is an [IndexError]. *)
Definition embed_one (W : list (list R)) (i : Z) : option (list R) :=
  if ((0 <=? i) && (i <? Z.of_nat (length W)))%Z then Some (nth (Z.to_nat i) W [])
  else None.

Fixpoint option_map_list {A B : Type} (f : A -> option B) (l : list A) : option (list B) :=
  match l with
  | [] => Some []
  | a :: r => match f a, option_map_list f r with
              | Some b, Some bs => Some (b :: bs)
              | _, _ => None
              end
  end.

Definition embed (W : list (list R)) (ids : list (list Z)) : option Hid :=
  option_map_list (option_map_list (embed_one W)) ids.

Definition lift_idx {A : Type} (o : option A) : M A :=
  match o with Some a => ret a | None => raise IndexError end.

(** A 2-D integer tensor ([input_ids]): its rows, and its number of
    columns kept beside them, so that a [0 x S] tensor still has [S]. *)
Record ITensor2 := mkIT { it_rows :> list (list Z); it_cols : nat }.

(** [input_ids.size()]. *)
Definition size2 (ids : ITensor2) : nat * nat :=
  (length (it_rows ids), it_cols ids).

(** The activations that reach the output projection: all positions, or the
    rows selected by [loss_generating_tokens]. *)
Inductive Act := A3 (x : Hid) | A2 (x : list (list R)).

(** [x.view(-1, d)[loss_generating_tokens.view(-1)]]. *)
Definition select_rows (x : Hid) (l : list (list Z)) : list (list R) :=
  map fst (filter (fun rv => negb (snd rv =? 0)%Z) (combine (concat x) (concat l))).

Definition linear_act (W : list (list R)) (b : option (list R)) (x : Act) : Act :=
  match x with
  | A3 h => A3 (map_rows (linear_row W b) h)
  | A2 r => A2 (map (linear_row W b) r)
  end.

(** [x * f + x.detach() * (1 - f)] on values: [detach] keeps the value. *)
Definition frac_values (f : R) (x : Hid) : Hid :=
  map (map (map (fun v => (v * f + v * (1 - f))%R))) x.

(** ** [GPTBlock.forward] and [MosaicModel.forward]

    The library layers are parameters: [nn.LayerNorm], [nn.GELU], the two
    kinds of [nn.Dropout] and the attention module ([nn.MultiheadAttention]
    or [FlashMHA], first output). *)
Section Forward.
Variable layer_norm : LNParams -> list R -> list R.
Variable gelu : R -> R.
Variable emb_drop resid_drop : Hid -> Hid.
Variable attention : list (list (list R)) -> Hid -> T4 ext -> Hid.

Definition mlp_forward (blk : BlockParams) (row : list R) : list R :=
  linear_row (lin_weight (mlp_down blk)) (lin_bias (mlp_down blk))
    (map gelu (linear_row (lin_weight (mlp_up blk)) (lin_bias (mlp_up blk)) row)).

Definition block_forward (x : Hid) (blk : BlockParams) (attn_mask : T4 ext) : Hid :=
  let a := map_rows (layer_norm (ln_1 blk)) x in
  let b := attention (attn_w blk) a attn_mask in
  let x := hadd x (resid_drop b) in
  let m := map_rows (layer_norm (ln_2 blk)) x in
  let n := map_rows (mlp_forward blk) m in
  hadd x (resid_drop n).

(** Lines 252-279 of [forward], after the length check. *)
Definition forward_body (input_ids : ITensor2)
    (attention_mask bidirectional_mask loss_generating_tokens : option (list (list Z)))
    : M (Act * T4 ext) :=
  let B := fst (size2 input_ids) in
  let S := snd (size2 input_ids) in
  p <- gets params ;;
  tok_emb <- lift_idx (embed (wte p) input_ids) ;;
  al <- gets alibi ;;
  x <- (if al then ret tok_emb
        else match wpe p with
             | Some wpe =>
                 pos_emb <- lift_idx (embed wpe [map Z.of_nat (seq 0 S)]) ;;
                 ret (add_pos tok_emb pos_emb)
             | None => raise AttributeError
             end) ;;
  f <- gets embedding_fraction ;;
  let x := if Qeq_bool f 1 then emb_drop x else emb_drop (frac_values (Q2R f) x) in
  attn_bias <- build_attn_bias B S attention_mask bidirectional_mask ;;
  let x := fold_left (fun x blk => block_forward x blk attn_bias) (blocks p) x in
  let x := map_rows (layer_norm (ln_f p)) x in
  x <- match loss_generating_tokens with
       | None => ret (A3 x)
       | Some l => assert (shape_is l B S) ;;; ret (A2 (select_rows x l))
       end ;;
  ret (x, attn_bias).

(** [MosaicModel.forward]: the length check, the body, and the output
    projection with the token-embedding weight (line 281). *)
Definition forward (input_ids : ITensor2)
    (attention_mask bidirectional_mask loss_generating_tokens : option (list (list Z)))
    : M (Act * T4 ext) :=
  c <- gets cfg ;;
  assert (snd (size2 input_ids) <=? max_seq_len c) ;;;
  xb <- forward_body input_ids attention_mask bidirectional_mask loss_generating_tokens ;;
  p <- gets params ;;
  let logits := linear_act (wte p) None (fst xb) in
  ret (logits, snd xb).
End Forward.

(** ** [ComposerMosaicModel] *)

Record Batch := mkBatch {
  input_ids : ITensor2;
  labels : option (list (list Z));
  attention_mask_of : option (list (list Z));
  bidirectional_mask_of : option (list (list Z))
}.

(** [get_targets] returns a [B x S] tensor, or a flat one from [labels]. *)
Inductive Targets := T2 (t : list (list Z)) | T1 (t : list Z).

(** [torch.roll(t, shifts=-1)] with no [dims]: the tensor is flattened,
    rolled, and given back its shape. *)
Definition roll_flat (l : list Z) : list Z :=
  match l with [] => [] | x :: r => r ++ [x] end.

Definition reshape (B S : nat) (l : list Z) : list (list Z) :=
  map (fun b => firstn S (skipn (b * S) l)) (seq 0 B).

Definition roll_shifts_m1 (t : ITensor2) : list (list Z) :=
  reshape (fst (size2 t)) (snd (size2 t)) (roll_flat (concat t)).

(** [row[S - 1] = v]. *)
Definition set_last (S : nat) (v : Z) (row : list Z) : list Z :=
  firstn (S - 1) row ++ [v] ++ skipn S row.

Definition get_targets (batch : Batch) : exn + Targets :=
  match labels batch with
  | Some lab =>
      inr (T1 (filter (fun v => negb (v =? -100)%Z) (concat lab)))
  | None =>
      let targets := roll_shifts_m1 (input_ids batch) in
      let S := snd (size2 (input_ids batch)) in
      if S =? 0 then inl IndexError             (* targets[:, -1] on size 0 *)
      else inr (T2 (map (set_last S (-100)%Z) targets))
  end.

Definition act_rows (o : Act) : nat := match o with A3 h => length h | A2 r => length r end.
Definition act_flat (o : Act) : list (list R) := match o with A3 h => concat h | A2 r => r end.
Definition targets_rows (t : Targets) : nat := match t with T2 t => length t | T1 t => length t end.
Definition targets_flat (t : Targets) : list Z := match t with T2 t => concat t | T1 t => t end.

Definition sum_R (l : list R) : R := fold_right Rplus 0%R l.

(** [-log_softmax(o)[t]]. *)
Definition nll (o : list R) (t : nat) : R := (ln (sum_R (map exp o)) - nth t o 0)%R.

(** [F.cross_entropy(logits, targets, ignore_index=-100)], mean reduction:
    the mean of the negative log-likelihoods over the kept positions. *)
Definition cross_entropy (logits : list (list R)) (targets : list Z) : exn + R :=
  if negb (length logits =? length targets) then inl RuntimeError
  else
    let kept := filter (fun ot => negb (snd ot =? -100)%Z) (combine logits targets) in
    if existsb (fun ot => ((snd ot <? 0) || (Z.of_nat (length (fst ot)) <=? snd ot))%Z) kept
    then inl IndexError
    else inr (sum_R (map (fun ot => nll (fst ot) (Z.to_nat (snd ot))) kept)
              / INR (length kept))%R.

Definition loss (outputs : Act) (batch : Batch) : exn + R :=
  match get_targets batch with
  | inl e => inl e
  | inr targets =>
      if negb (act_rows outputs =? targets_rows targets) then inl AssertionError
      else cross_entropy (act_flat outputs) (targets_flat targets)
  end.

(** The state of a [ComposerMosaicModel]: the model and the private cache
    [__num_fwd_flops]. *)
Record Composer := mkComposer { model : Model; num_fwd_flops_cache : option nat }.

Definition composer_init (c : Cfg) (p : Params) : exn + Composer :=
  match init c p with inl e => inl e | inr m => inr (mkComposer m None) end.

Definition numel2 (W : list (list R)) : nat := fold_right plus 0 (map (@length R) W).
Definition numel_ln (ln : LNParams) : nat := length (ln_weight ln) + length (ln_bias ln).
Definition numel_linear (l : LinearParams) : nat :=
  numel2 (lin_weight l) + match lin_bias l with Some b => length b | None => 0 end.
Definition numel_block (blk : BlockParams) : nat :=
  numel_ln (ln_1 blk) + fold_right plus 0 (map numel2 (attn_w blk))
  + numel_ln (ln_2 blk) + numel_linear (mlp_up blk) + numel_linear (mlp_down blk).

(** [sum(p.numel() for p in self.parameters())]. *)
Definition n_params (p : Params) : nat :=
  numel2 (wte p) + match wpe p with Some w => numel2 w | None => 0 end
  + fold_right plus 0 (map numel_block (blocks p)) + numel_ln (ln_f p).

Definition flops_value (m : Model) : nat :=
  let c := cfg m in
  let params_flops_per_token := 2 * n_params (params m) in
  let params_flops_per_seq := params_flops_per_token * max_seq_len c in
  let attn_flops_per_seq := n_layers c * 2 * 2 * (d_model c * (max_seq_len c ^ 2)) in
  params_flops_per_seq + attn_flops_per_seq.

(** Python truthiness of the cache: [None] and [0] are false. *)
Definition truthy (o : option nat) : bool :=
  match o with Some v => negb (v =? 0) | None => false end.

(** The property [num_fwd_flops]: its value and the state after the access. *)
Definition num_fwd_flops (st : Composer) : nat * Composer :=
  match num_fwd_flops_cache st with
  | Some v => if negb (v =? 0) then (v, st)
              else (flops_value (model st), mkComposer (model st) (Some (flops_value (model st))))
  | None => (flops_value (model st), mkComposer (model st) (Some (flops_value (model st))))
  end.

(** [n] successive accesses to [num_fwd_flops]. *)
Fixpoint access_n (n : nat) (st : Composer) : Composer :=
  match n with
  | 0 => st
  | Datatypes.S k => access_n k (snd (num_fwd_flops st))
  end.

(** A configuration with [max_seq_len = 0]. *)
Definition cfg_len0 : Cfg :=
  mkCfg "mosaic_model" 10 4 2 1 0 false 8%R 1%Q.

(** ** The embedding fraction on values and tangents

    A value with its tangent (forward-mode derivative); [x.detach()] keeps
    the value and drops the tangent. *)
Record Dual := mkDual { val : R; tan : R }.

Definition dscale (x : Dual) (c : R) : Dual := mkDual (val x * c) (tan x * c).
Definition dplus (x y : Dual) : Dual := mkDual (val x + val y) (tan x + tan y).
Definition detach (x : Dual) : Dual := mkDual (val x) 0.

(** The input of [emb_drop] in [forward] (lines 260-266), per element. *)
Definition embedding_fraction_step (f : Q) (x : Dual) : Dual :=
  if Qeq_bool f 1 then x
  else dplus (dscale x (Q2R f)) (dscale (detach x) (1 - Q2R f)).

(** ** Shapes, the wrapper's forward, attention masks and initialisation *)

(** A [B x S x ...] nesting of lists: [B] rows of [S] entries each. *)
Definition shape2 {A : Type} (x : list (list A)) (B S : nat) : Prop :=
  length x = B /\ Forall (fun r => length r = S) x.

(** [ComposerMosaicModel.forward]: with labels, the loss-generating tokens
    are [labels != -100] (as 0/1); the logits of [MosaicModel.forward]. *)
Definition composer_forward layer_norm gelu emb_drop resid_drop attention
    (batch : Batch) : M Act :=
  let lgt := match labels batch with
             | Some lab => Some (map (map (fun v => if (v =? -100)%Z then 0%Z else 1%Z)) lab)
             | None => None
             end in
  r <- forward layer_norm gelu emb_drop resid_drop attention (input_ids batch)
         (attention_mask_of batch) (bidirectional_mask_of batch) lgt ;;
  ret (fst r).

(** 3-D tensors. *)
Record T3 (A : Type) := mkT3 { e0 : nat; e1 : nat; e2 : nat; at3 : nat -> nat -> nat -> A }.
Arguments mkT3 {A}. Arguments e0 {A}. Arguments e1 {A}. Arguments e2 {A}. Arguments at3 {A}.

(** [attn_mask.view((-1,) + attn_mask.shape[2:])] on a contiguous
    [B x H x S x S] tensor: plane [i] is [(i / H, i mod H)]. *)
Definition view_heads {A : Type} (t : T4 A) : T3 A :=
  mkT3 (d0 t * d1 t) (d2 t) (d3 t) (fun i q k => at4 t (i / d1 t) (i mod d1 t) q k).

(** [TorchAttention.forward]: the library [nn.MultiheadAttention] is the
    parameter [mhsa], called as [mhsa(x, x, x, attn_mask=...)]. *)
Definition torch_attention_forward {Y : Type}
    (mhsa : Hid -> Hid -> Hid -> T3 ext -> Y) (x : Hid) (attn_mask : T4 ext) : Y :=
  mhsa x x x (view_heads attn_mask).






(** The module built from [cfg_ex] and [params_tied], and pass-through
    library layers. *)
Definition model_tied : Model :=
  match init cfg_ex params_tied with
  | inr m => m
  | inl _ => mkModel cfg_ex params_tied []
  end.

Definition id_ln (_ : LNParams) (r : list R) : list R := r.
Definition id_gelu (v : R) : R := v.
Definition id_drop (x : Hid) : Hid := x.
Definition id_attn (_ : list (list (list R))) (x : Hid) (_ : T4 ext) : Hid := x.

(** * Proofs *)

(** ** Lemmas on broadcasting and on the initialised module *)

Lemma bdim_same a : bdim a a = Some a.
Proof. unfold bdim. now rewrite Nat.eqb_refl. Qed.

Lemma bdim_one_l a : bdim 1 a = Some a.
Proof.
  unfold bdim. destruct (Nat.eqb_spec 1 a) as [<-|]; reflexivity.
Qed.

Lemma bdim_one_r a : bdim a 1 = Some a.
Proof.
  unfold bdim. destruct (Nat.eqb_spec a 1) as [->|]; [reflexivity|].
  destruct (Nat.eqb_spec a 1); [contradiction|]. reflexivity.
Qed.

Lemma bidx_lt d i : i < d -> bidx d i = i.
Proof.
  unfold bidx. intros Hi. destruct (Nat.eqb_spec d 1); [lia|reflexivity].
Qed.

Lemma bidx_one i : bidx 1 i = 0.
Proof. reflexivity. Qed.

Lemma min_le_l' S L : S <= L -> Nat.min S L = S.
Proof. lia. Qed.


(** The module produced by [__init__]: its buffers, in order. *)
Lemma init_inv c p m :
  init c p = inr m ->
  cfg m = c /\ n_heads c <> 0 /\
  buffers m =
    [("alibi_mask"%string,
       BufR (mkT4 1 (n_heads c) (max_seq_len c) (max_seq_len c)
               (fun _ h q k => alibi_value c h q k)));
     ("zeros_mask"%string,
       BufR (mkT4 1 (n_heads c) (max_seq_len c) (max_seq_len c)
               (fun _ _ _ _ => 0%R)));
     ("causal_mask"%string, BufB (causal_template (max_seq_len c)))].
Proof.
  unfold init, alibi_bias.
  destruct (negb (String.eqb _ _)); [discriminate|].
  destruct (negb (_ && _)); [discriminate|].
  destruct (Nat.eqb_spec (n_heads c) 0); [discriminate|].
  intros E; injection E as <-. repeat split; auto.
Qed.

Ltac init_facts Hinit :=
  let Hc := fresh "Hc" in let Hh := fresh "Hh" in let Hb := fresh "Hb" in
  destruct (init_inv _ _ _ Hinit) as (Hc & Hh & Hb).

(** Running [build_attn_bias] on an initialised module: the buffer reads. *)
Lemma buf_R_alibi c m :
  cfg m = c ->
  buffers m =
    [("alibi_mask"%string,
       BufR (mkT4 1 (n_heads c) (max_seq_len c) (max_seq_len c)
               (fun _ h q k => alibi_value c h q k)));
     ("zeros_mask"%string,
       BufR (mkT4 1 (n_heads c) (max_seq_len c) (max_seq_len c)
               (fun _ _ _ _ => 0%R)));
     ("causal_mask"%string, BufB (causal_template (max_seq_len c)))] ->
  (if alibi m then buf_R "alibi_mask" else buf_R "zeros_mask") m =
    inr (mkT4 1 (n_heads c) (max_seq_len c) (max_seq_len c)
           (fun _ h q k => template_value c h q k), m)
  /\ buf_B "causal_mask" m = inr (causal_template (max_seq_len c), m).
Proof.
  intros Hc Hb. unfold alibi, template_value, buf_R, buf_B, bind, gets.
  cbv beta. rewrite Hc. destruct (cfg_alibi c); split; cbn; rewrite Hb;
    reflexivity.
Qed.

Lemma describes_ext {A : Type} (t : T4 A) e0 e1 e2 e3 g g' :
  describes t e0 e1 e2 e3 g ->
  (forall i j k l, i < e0 -> j < e1 -> k < e2 -> l < e3 -> g i j k l = g' i j k l) ->
  describes t e0 e1 e2 e3 g'.
Proof.
  intros (H0 & H1 & H2 & H3 & Hg) Hext. repeat split; auto.
  intros. rewrite Hg by assumption. auto.
Qed.

Lemma bdim_bidx a b e i : bdim a b = Some e -> i < e -> bidx a i < a.
Proof.
  unfold bdim, bidx.
  destruct (Nat.eqb_spec a b) as [<-|Hab]; intros E; [injection E as <-|].
  - destruct (Nat.eqb_spec a 1); lia.
  - destruct (Nat.eqb_spec a 1) as [->|Ha1]; [injection E as <-; lia|].
    destruct (Nat.eqb_spec b 1); [injection E as <-|discriminate]. lia.
Qed.

Lemma bdim_comm a b : bdim a b = bdim b a.
Proof.
  unfold bdim.
  destruct (Nat.eqb_spec a b), (Nat.eqb_spec b a); subst; try lia; auto.
  destruct (Nat.eqb_spec a 1), (Nat.eqb_spec b 1); subst; auto; lia.
Qed.

Lemma broadcast2_describes {A B C : Type} (f : A -> B -> C) x y
    a0 a1 a2 a3 b0 b1 b2 b3 e0 e1 e2 e3 gx gy :
  describes x a0 a1 a2 a3 gx -> describes y b0 b1 b2 b3 gy ->
  bdim a0 b0 = Some e0 -> bdim a1 b1 = Some e1 ->
  bdim a2 b2 = Some e2 -> bdim a3 b3 = Some e3 ->
  exists t, broadcast2 f x y = Some t /\
    describes t e0 e1 e2 e3 (fun i j k l =>
      f (gx (bidx a0 i) (bidx a1 j) (bidx a2 k) (bidx a3 l))
        (gy (bidx b0 i) (bidx b1 j) (bidx b2 k) (bidx b3 l))).
Proof.
  intros (Ex0 & Ex1 & Ex2 & Ex3 & Hx) (Ey0 & Ey1 & Ey2 & Ey3 & Hy) E0 E1 E2 E3.
  unfold broadcast2. rewrite Ex0, Ex1, Ex2, Ex3, Ey0, Ey1, Ey2, Ey3, E0, E1, E2, E3.
  eexists; split; [reflexivity|]. repeat split; cbn; auto.
  intros i j k l Hi Hj Hk Hl.
  rewrite Hx, Hy; auto.
  all: first [ eapply bdim_bidx; eassumption
             | eapply bdim_bidx; [rewrite bdim_comm; eassumption | assumption] ].
Qed.

(** The templates and masks that [build_attn_bias] combines. *)
Lemma slice2_describes {A : Type} (t : T4 A) a0 a1 L g S :
  describes t a0 a1 L L g -> S <= L -> describes (slice2 t S) a0 a1 S S g.
Proof.
  intros (E0 & E1 & E2 & E3 & Hg) HS. unfold slice2.
  repeat split; cbn; auto; try (rewrite ?E2, ?E3; lia).
  intros; apply Hg; lia.
Qed.

Lemma causal_describes L :
  describes (causal_template L) 1 1 L L (fun _ _ q k => k <=? q).
Proof. repeat split; auto. Qed.

Lemma unsqueeze_describes x S :
  describes (unsqueeze_mask x S) (length x) 1 1 S
    (fun b _ _ k => negb (entry x b k =? 0)%Z).
Proof. repeat split; auto. Qed.

Lemma shape_is_length x B S : shape_is x B S = true -> length x = B.
Proof. unfold shape_is. intros H. apply andb_prop in H as [H _]. now apply Nat.eqb_eq. Qed.

(** ** Monad steps *)

Lemma bind_ok {A B : Type} (c : M A) (f : A -> M B) m a :
  c m = inr (a, m) -> bind c f m = f a m.
Proof. unfold bind. intros ->. reflexivity. Qed.

Lemma gets_ok {A : Type} (f : Model -> A) m : gets f m = inr (f m, m).
Proof. reflexivity. Qed.

Lemma ret_ok {A : Type} (a : A) m : ret a m = inr (a, m).
Proof. reflexivity. Qed.

Lemma assert_then_lift_ok {A : Type} b (o : option A) a m :
  b = true -> o = Some a -> (assert b ;;; lift o) m = inr (a, m).
Proof. intros -> ->. reflexivity. Qed.

Ltac simpl_bidx :=
  repeat match goal with
         | H : ?i < ?d |- context [bidx ?d ?i] => rewrite (bidx_lt d i H)
         end.

(** ** The bias built on an initialised module *)

Lemma build_attn_bias_spec c p m B S am bm :
  init c p = inr m -> S <= max_seq_len c ->
  (forall x, bm = Some x -> shape_is x B S = true) ->
  (forall x, am = Some x -> all_nonzero x = false -> shape_is x B S = true) ->
  exists t, build_attn_bias B S am bm m = inr (t, m)
    /\ describes t (batch_dim B am bm) (n_heads c) S S
         (fun b h q k => where_ninf (allowed am bm b q k) (template_value c h q k)).
Proof.
  intros Hinit HS Hbm Ham. init_facts Hinit.
  destruct (buf_R_alibi c m Hc Hb) as [HR HB].
  set (L := max_seq_len c) in *.
  assert (Dbias : describes
            (slice2 (mkT4 1 (n_heads c) L L (fun _ h q k => template_value c h q k)) S)
            1 (n_heads c) S S (fun _ h q k => template_value c h q k)).
  { apply slice2_describes with (L := L); [repeat split; auto | exact HS]. }
  assert (Dc : describes (slice2 (causal_template L) S) 1 1 S S (fun _ _ q k => k <=? q)).
  { apply slice2_describes with (L := L); [apply causal_describes | exact HS]. }
  (* the causal or mixed bidirectional mask *)
  assert (Hm1 : exists mask1,
    (match bm with
     | None => ret (slice2 (causal_template L) S)
     | Some x => assert (shape_is x B S) ;;;
                 lift (broadcast2 orb (slice2 (causal_template L) S) (unsqueeze_mask x S))
     end) m = inr (mask1, m)
    /\ describes mask1 (match bm with None => 1 | Some _ => B end) 1 S S
         (fun b _ q k => (k <=? q) || match bm with
                                       | Some x => negb (entry x b k =? 0)%Z
                                       | None => false end)).
  { destruct bm as [x|].
    - pose proof (Hbm x eq_refl) as Hx. pose proof (shape_is_length _ _ _ Hx) as Lx.
      destruct (broadcast2_describes orb _ _ _ _ _ _ _ _ _ _ (length x) 1 S S _ _
                  Dc (unsqueeze_describes x S)) as (t & Ht & Dt);
        try apply bdim_one_l; try apply bdim_one_r; try apply bdim_same.
      exists t; split; [now apply assert_then_lift_ok|].
      rewrite Lx in Dt. eapply describes_ext; [exact Dt|].
      intros i j q k Hi Hj Hq Hk; cbn beta. simpl_bidx. reflexivity.
    - exists (slice2 (causal_template L) S); split; [reflexivity|].
      eapply describes_ext; [exact Dc|]. intros; cbn beta; now rewrite orb_false_r. }
  destruct Hm1 as (mask1 & E1 & D1).
  (* the padding restriction *)
  assert (Hm2 : exists mask2,
    (match am with
     | None => ret mask1
     | Some y => if all_nonzero y then ret mask1
                 else assert (shape_is y B S) ;;;
                      lift (broadcast2 andb mask1 (unsqueeze_mask y S))
     end) m = inr (mask2, m)
    /\ describes mask2 (batch_dim B am bm) 1 S S (fun b _ q k => allowed am bm b q k)).
  { unfold allowed, batch_dim.
    destruct am as [y|]; [destruct (all_nonzero y) eqn:Ey|].
    2: { pose proof (Ham y eq_refl Ey) as Hy. pose proof (shape_is_length _ _ _ Hy) as Ly.
         destruct (broadcast2_describes andb _ _ _ _ _ _ _ _ _ _ B 1 S S _ _
                     D1 (unsqueeze_describes y S)) as (t & Ht & Dt);
           try apply bdim_one_l; try apply bdim_one_r; try apply bdim_same.
         { rewrite Ly. destruct bm; [apply bdim_same|apply bdim_one_l]. }
         exists t; split; [now apply assert_then_lift_ok|].
         rewrite Ly in Dt.
         destruct bm; (eapply describes_ext; [exact Dt|]);
           intros i j q k Hi Hj Hq Hk; cbn beta; simpl_bidx; reflexivity. }
    all: exists mask1; split; [reflexivity|].
    all: destruct bm; (eapply describes_ext; [exact D1|]);
           intros; cbn beta; rewrite andb_true_r; reflexivity. }
  destruct Hm2 as (mask2 & E2 & D2).
  destruct (broadcast2_describes where_ninf _ _ _ _ _ _ _ _ _ _
              (batch_dim B am bm) (n_heads c) S S _ _ D2 Dbias) as (t & Ht & Dt);
    try apply bdim_one_l; try apply bdim_one_r; try apply bdim_same.
  exists t; split.
  - unfold build_attn_bias.
    rewrite (bind_ok _ _ _ _ (gets_ok _ _)); cbv beta zeta.
    rewrite (bind_ok _ _ _ _ HR); cbv beta zeta.
    rewrite (bind_ok _ _ _ _ HB); cbv beta zeta.
    rewrite (bind_ok _ _ _ _ E1); cbv beta zeta.
    rewrite (bind_ok _ _ _ _ E2). unfold lift. rewrite Ht. reflexivity.
  - eapply describes_ext; [exact Dt|].
    intros b h q k Hb' Hh' Hq Hk; cbn beta. simpl_bidx.
    unfold batch_dim in Hb'. destruct bm, am; try reflexivity.
    all: try (destruct (all_nonzero _); simpl_bidx; reflexivity).
    all: simpl_bidx; reflexivity.
Qed.

Lemma all_ones_nonzero y :
  forallb (forallb (fun v => (v =? 1)%Z)) y = true -> all_nonzero y = true.
Proof.
  unfold all_nonzero. induction y as [|row y IH]; cbn; auto.
  intros H. apply andb_prop in H as [Hr Hy]. rewrite IH by exact Hy.
  rewrite andb_true_r. induction row as [|v row IHr]; cbn in *; auto.
  apply andb_prop in Hr as [Hv Hr]. apply Z.eqb_eq in Hv; subst v.
  cbn. apply IHr, Hr.
Qed.

(** ** Claims on [build_attn_bias] *)



(** C3: with a well-shaped attention mask, every key [k] whose entry is 0
    in batch element [b] gets [-inf] from every query and head; a key with
    a nonzero entry keeps the bias of the causal/bidirectional combination.
    When the mask has a zero entry, the bias has one batch row per batch
    element. *)
Theorem build_attn_bias_padding c p m B S y bm :
  init c p = inr m -> S <= max_seq_len c -> shape_is y B S = true ->
  (forall x, bm = Some x -> shape_is x B S = true) ->
  exists t, build_attn_bias B S (Some y) bm m = inr (t, m)
    /\ (all_nonzero y = false -> d0 t = B)
    /\ forall b h q k, b < B -> b < d0 t -> h < n_heads c -> q < S -> k < S ->
         (entry y b k = 0%Z -> at4 t b h q k = NegInf)
         /\ (entry y b k <> 0%Z ->
             at4 t b h q k = where_ninf (allowed None bm b q k) (template_value c h q k)).
Proof.
  intros Hinit HS Hy Hbm.
  destruct (build_attn_bias_spec c p m B S (Some y) bm Hinit HS) as (t & Et & Dt);
    [exact Hbm | intros y' E _; injection E as <-; exact Hy |].
  destruct Dt as (D0 & D1 & D2 & D3 & Dat).
  exists t; split; [exact Et|]; split.
  { intros Hz. rewrite D0. unfold batch_dim. rewrite Hz. destruct bm; reflexivity. }
  intros b h q k HbB Hb Hh Hq Hk. rewrite D0 in Hb.
  rewrite Dat by assumption. unfold where_ninf, allowed.
  split; intros Hyk.
  - (* a zero entry: the mask is not all nonzero *)
    assert (Hall : all_nonzero y = false).
    { destruct (all_nonzero y) eqn:E; [|reflexivity]. exfalso.
      pose proof E as E'. unfold all_nonzero in E. unfold entry in Hyk.
      rewrite forallb_forall in E.
      destruct (Nat.lt_ge_cases b (length y)) as [Hby|Hby].
      - specialize (E (nth b y []) (nth_In _ [] Hby)). rewrite forallb_forall in E.
        destruct (Nat.lt_ge_cases k (length (nth b y []))) as [Hky|Hky].
        + specialize (E _ (nth_In _ 0%Z Hky)). rewrite Hyk in E. discriminate.
        + unfold shape_is in Hy. apply andb_prop in Hy as [_ Hy].
          rewrite forallb_forall in Hy. specialize (Hy _ (nth_In _ [] Hby)).
          apply Nat.eqb_eq in Hy. lia.
      - unfold batch_dim in Hb. rewrite E' in Hb.
        assert (length y = B) by (eapply shape_is_length; eauto).
        lia. }
    rewrite Hall, Hyk. cbn. rewrite andb_false_r. reflexivity.
  - apply Z.eqb_neq in Hyk. rewrite Hyk. cbn [negb].
    destruct (all_nonzero y); rewrite !andb_true_r; reflexivity.
Qed.

(** C10: an attention mask of all ones is the same as no attention mask,
    for every batch size, sequence length and bidirectional mask (the
    results, errors included, coincide on every module). *)
Theorem build_attn_bias_all_ones B S y bm m :
  forallb (forallb (fun v => (v =? 1)%Z)) y = true ->
  build_attn_bias B S (Some y) bm m = build_attn_bias B S None bm m.
Proof.
  intros H1. pose proof (all_ones_nonzero y H1) as Hnz.
  unfold build_attn_bias. cbv iota. rewrite Hnz. reflexivity.
Qed.

(** ** Witnesses *)



Lemma build_attn_bias_padding_witness :
  exists m, init cfg_ex params_ex = inr m /\
    exists t, build_attn_bias 2 3 (Some [[1; 1; 1]; [1; 0; 1]]%Z) None m = inr (t, m)
      /\ at4 t 1 0 2 1 = NegInf.
Proof.
  eexists; split; [reflexivity|].
  destruct (build_attn_bias_padding cfg_ex params_ex _ 2 3
              [[1; 1; 1]; [1; 0; 1]]%Z None eq_refl ltac:(cbn; lia) eq_refl
              ltac:(intros x E; discriminate))
    as (t & Et & HB & Hat).
  exists t; split; [exact Et|].
  apply (Hat 1 0 2 1); try (cbn; lia); try reflexivity.
  rewrite HB by reflexivity; lia.
Defined.

Lemma build_attn_bias_all_ones_witness :
  exists m, init cfg_ex params_ex = inr m /\
    build_attn_bias 2 3 (Some [[1; 1; 1]; [1; 1; 1]]%Z) None m =
    build_attn_bias 2 3 None None m.
Proof.
  eexists; split; [reflexivity|].
  apply (build_attn_bias_all_ones 2 3 _ None). reflexivity.
Defined.

(** ** Targets and loss *)

Lemma skipn_S_tl {A : Type} n (l : list A) : skipn (Datatypes.S n) l = tl (skipn n l).
Proof.
  revert l. induction n as [|n IH]; intros [|a l]; cbn; auto.
  apply IH.
Qed.

Lemma skipn_concat_rect (ids : list (list Z)) S b :
  Forall (fun row => length row = S) ids ->
  skipn (b * S) (concat ids) = concat (skipn b ids).
Proof.
  revert b. induction ids as [|row ids IH]; intros b HF.
  - rewrite !skipn_nil. reflexivity.
  - inversion HF as [|? ? Hr HF']; subst. destruct b as [|b]; [reflexivity|].
    cbn [concat skipn]. replace (Datatypes.S b * length row) with (b * length row + length row) by lia.
    rewrite <- skipn_skipn, skipn_app, skipn_all, Nat.sub_diag, skipn_O. cbn [app].
    now apply IH.
Qed.

Lemma concat_length_rect (ids : list (list Z)) S :
  Forall (fun row => length row = S) ids -> length (concat ids) = length ids * S.
Proof.
  induction 1 as [|row ids Hr _ IH]; cbn; [reflexivity|].
  rewrite length_app, IH, Hr. lia.
Qed.

Lemma shifted_row (ids : list (list Z)) S b :
  0 < S -> Forall (fun row => length row = S) ids -> b < length ids ->
  set_last S (-100)%Z (firstn S (skipn (b * S) (roll_flat (concat ids))))
  = tl (nth b ids []) ++ [(-100)%Z].
Proof.
  intros HS HF Hb.
  assert (Hlen := concat_length_rect _ _ HF).
  assert (Hrow : length (nth b ids []) = S)
    by (rewrite Forall_forall in HF; apply HF, nth_In, Hb).
  assert (Hsk : concat (skipn b ids) = nth b ids [] ++ concat (skipn (Datatypes.S b) ids)).
  { clear -Hb. revert b Hb. induction ids as [|r ids IH]; intros [|b] Hb; cbn in *; try lia.
    - reflexivity.
    - apply IH. lia. }
  destruct (concat ids) as [|x c] eqn:Ec.
  { cbn in Hlen. nia. }
  cbn [roll_flat].
  assert (Hc : skipn (b * S) c = tl (nth b ids []) ++ concat (skipn (Datatypes.S b) ids)).
  { pose proof (skipn_concat_rect ids S b HF) as E. rewrite Ec, Hsk in E.
    change c with (skipn 1 (x :: c)). rewrite skipn_skipn, Nat.add_comm, skipn_S_tl, E.
    destruct (nth b ids []) as [|y r] eqn:Er; [cbn in Hrow; lia|]. reflexivity. }
  rewrite skipn_app.
  replace (b * S - length c) with 0 by (cbn in Hlen; nia).
  rewrite Hc, skipn_O, <- app_assoc.
  assert (Htl : length (tl (nth b ids [])) = S - 1)
    by (rewrite length_tl; lia).
  unfold set_last.
  rewrite firstn_firstn, Nat.min_l by lia.
  rewrite firstn_app, Htl, Nat.sub_diag, firstn_O, app_nil_r.
  rewrite firstn_all2 by lia.
  rewrite skipn_all2 by (rewrite length_firstn; lia).
  rewrite app_nil_r. reflexivity.
Qed.

Lemma map_as_seq {A B : Type} (g : A -> B) (l : list A) d :
  map g l = map (fun i => g (nth i l d)) (seq 0 (length l)).
Proof.
  induction l as [|a l IH]; [reflexivity|].
  cbn [length seq map nth]. f_equal. rewrite IH, <- seq_shift, map_map. reflexivity.
Qed.

(** Without labels, [get_targets] is the per-row shift with [-100] last. *)
Lemma get_targets_no_labels ids am bm :
  0 < snd (size2 ids) -> Forall (fun row => length row = snd (size2 ids)) ids ->
  get_targets (mkBatch ids None am bm)
  = inr (T2 (map (fun row => tl row ++ [(-100)%Z]) ids)).
Proof.
  intros HS HF. unfold get_targets. cbn [labels input_ids].
  destruct (Nat.eqb_spec (snd (size2 ids)) 0) as [E|_]; [lia|].
  do 2 f_equal. unfold roll_shifts_m1, reshape. rewrite map_map.
  rewrite (map_as_seq (fun row => tl row ++ [(-100)%Z]) ids []).
  cbn [fst size2]. apply map_ext_in. intros b Hb. apply in_seq in Hb.
  apply shifted_row; auto. lia.
Qed.

(** Changing the logits at positions whose target is the ignore label
    leaves the kept pairs, hence the cross-entropy, unchanged. *)
Lemma kept_pairs_ignore (l1 l2 : list (list R)) (t : list Z) :
  length l1 = length t -> length l2 = length t ->
  (forall i, nth i t 0%Z <> (-100)%Z -> nth i l1 [] = nth i l2 []) ->
  filter (fun ot => negb (snd ot =? -100)%Z) (combine l1 t)
  = filter (fun ot => negb (snd ot =? -100)%Z) (combine l2 t).
Proof.
  revert l1 l2. induction t as [|v t IH]; intros [|o1 l1] [|o2 l2] H1 H2 Hi;
    cbn in H1, H2; try lia; [reflexivity|].
  cbn [combine filter snd].
  rewrite (IH l1 l2) by (lia || (intros i; apply (Hi (Datatypes.S i)))).
  destruct (Z.eqb_spec v (-100)) as [|Hv]; [reflexivity|].
  cbn [negb]. specialize (Hi 0 Hv). cbn in Hi. now rewrite Hi.
Qed.

Lemma cross_entropy_ignore (l1 l2 : list (list R)) (t : list Z) :
  length l1 = length l2 ->
  (forall i, nth i t 0%Z <> (-100)%Z -> nth i l1 [] = nth i l2 []) ->
  cross_entropy l1 t = cross_entropy l2 t.
Proof.
  intros Hl Hi. unfold cross_entropy. rewrite Hl.
  destruct (Nat.eqb_spec (length l2) (length t)) as [E|]; [|reflexivity].
  cbn [negb]. rewrite (kept_pairs_ignore l1 l2 t) by (auto; lia). reflexivity.
Qed.

(** C5: for a batch without labels (rectangular [input_ids] with sequences
    of length at least 1), [get_targets] shifts each sequence left by one:
    the target at position [i] is the token at [i + 1], and the last
    position is the ignore label [-100]; [loss] is the cross-entropy of the
    flattened logits against these targets, and logits at ignored positions
    do not change it. *)
Theorem next_token_targets_and_loss ids am bm :
  0 < snd (size2 ids) -> Forall (fun row => length row = snd (size2 ids)) ids ->
  let batch := mkBatch ids None am bm in
  let targets := map (fun row => tl row ++ [(-100)%Z]) ids in
  get_targets batch = inr (T2 targets)
  /\ (forall b i, b < length ids -> i + 1 < snd (size2 ids) ->
        nth i (nth b targets []) 0%Z = entry ids b (i + 1))
  /\ (forall b, b < length ids ->
        nth (snd (size2 ids) - 1) (nth b targets []) 0%Z = (-100)%Z)
  /\ (forall o : Hid, length o = length ids ->
        loss (A3 o) batch = cross_entropy (concat o) (concat targets))
  /\ (forall o1 o2 : Hid, length o1 = length ids -> length o2 = length ids ->
        length (concat o1) = length (concat o2) ->
        (forall i, nth i (concat targets) 0%Z <> (-100)%Z ->
                   nth i (concat o1) [] = nth i (concat o2) []) ->
        loss (A3 o1) batch = loss (A3 o2) batch).
Proof.
  intros HS HF batch targets.
  assert (Ht : get_targets batch = inr (T2 targets)) by now apply get_targets_no_labels.
  set (S := snd (size2 ids)) in *.
  assert (Hrow : forall b, b < length ids ->
            nth b targets [] = tl (nth b ids []) ++ [(-100)%Z]
            /\ length (tl (nth b ids [])) = S - 1).
  { intros b Hb. split.
    - unfold targets. rewrite nth_indep with (d' := tl [] ++ [(-100)%Z])
        by (rewrite length_map; exact Hb).
      apply (map_nth (fun row => tl row ++ [(-100)%Z])).
    - rewrite length_tl. rewrite Forall_forall in HF.
      rewrite (HF _ (nth_In _ [] Hb)). reflexivity. }
  assert (Hloss : forall o : Hid, length o = length ids ->
            loss (A3 o) batch = cross_entropy (concat o) (concat targets)).
  { intros o Ho. unfold loss. rewrite Ht. cbn [act_rows targets_rows act_flat targets_flat].
    unfold targets. rewrite length_map, Ho, Nat.eqb_refl. reflexivity. }
  split; [exact Ht|]. split; [|split; [|split; [exact Hloss|]]].
  - intros b i Hb Hi. destruct (Hrow b Hb) as [-> Hl].
    rewrite app_nth1 by lia. unfold entry.
    destruct (nth b ids []) as [|y r]; cbn [tl length] in Hl; [lia|]. cbn [tl nth].
    now rewrite Nat.add_1_r.
  - intros b Hb. destruct (Hrow b Hb) as [-> Hl].
    rewrite app_nth2 by lia. rewrite Hl, Nat.sub_diag. reflexivity.
  - intros o1 o2 H1 H2 Hc Hi. rewrite !Hloss by assumption.
    apply cross_entropy_ignore; assumption.
Qed.

(** ** The embedding fraction *)

Lemma Q2R_one : Q2R 1 = 1%R.
Proof. unfold Q2R. cbn. lra. Qed.

(** C6: for [0 < f <= 1], the input of [emb_drop] has the value of the
    embedding activation, and its tangent (the gradient through the
    embedding) is scaled by [f]; for [f = 1] the activation is passed on
    unchanged. *)
Theorem embedding_fraction_scales_gradient (f : Q) (x : Dual) :
  (0 < f)%Q -> (f <= 1)%Q ->
  val (embedding_fraction_step f x) = val x
  /\ tan (embedding_fraction_step f x) = (tan x * Q2R f)%R
  /\ ((f == 1)%Q -> embedding_fraction_step f x = x).
Proof.
  intros _ _. unfold embedding_fraction_step.
  destruct (Qeq_bool f 1) eqn:E.
  - apply Qeq_bool_eq, Qeq_eqR in E. rewrite E, Q2R_one.
    split; [reflexivity|]. split; [cbn; ring|auto].
  - cbn. split; [ring|]. split; [ring|].
    intros Hf. apply Qeq_bool_iff in Hf. congruence.
Qed.

(** ** The cached FLOPs estimate *)

(** Every access returns the formula and leaves the model alone; the cache
    is filled with it. *)
Lemma num_fwd_flops_value st :
  num_fwd_flops_cache st = None \/ num_fwd_flops_cache st = Some (flops_value (model st)) ->
  fst (num_fwd_flops st) = flops_value (model st)
  /\ model (snd (num_fwd_flops st)) = model st
  /\ num_fwd_flops_cache (snd (num_fwd_flops st)) = Some (flops_value (model st)).
Proof.
  unfold num_fwd_flops. intros [E | E]; rewrite E; [cbn; auto|].
  destruct (negb (flops_value (model st) =? 0)); cbn; auto.
Qed.

Lemma access_n_inv n st :
  num_fwd_flops_cache st = None
  \/ num_fwd_flops_cache st = Some (flops_value (model st)) ->
  model (access_n n st) = model st
  /\ (num_fwd_flops_cache (access_n n st) = None
      \/ num_fwd_flops_cache (access_n n st) = Some (flops_value (model st)))
  /\ (0 < n -> num_fwd_flops_cache (access_n n st) = Some (flops_value (model st))).
Proof.
  revert st. induction n as [|n IH]; intros st Hst.
  - split; [reflexivity|]. split; [exact Hst|lia].
  - cbn [access_n]. destruct (num_fwd_flops_value st Hst) as (_ & Hm & Hc).
    destruct (IH (snd (num_fwd_flops st))) as (Hm' & Hor & Hlt).
    { right. rewrite Hm. exact Hc. }
    rewrite Hm in Hor, Hlt.
    split; [rewrite Hm'; exact Hm|]. split; [exact Hor|]. intros _.
    destruct n as [|n]; [exact Hc | apply Hlt; lia].
Qed.

(** C8 (code bug): [num_fwd_flops] keeps its estimate in
    [__num_fwd_flops], initialised to [None], to compute it once, but tests
    the cache by truthiness ([if self.__num_fwd_flops]). When the estimate
    is 0 ([max_seq_len = 0]) the cache test fails at every access, after
    any number of earlier ones, so the value is recomputed each time
    although it has been stored. *)
Theorem num_fwd_flops_zero_not_cached c p st n :
  composer_init c p = inr st -> max_seq_len c = 0 ->
  truthy (num_fwd_flops_cache (access_n n st)) = false
  /\ (0 < n -> num_fwd_flops_cache (access_n n st) = Some 0).
Proof.
  intros E H0. unfold composer_init in E.
  destruct (init c p) as [e|m] eqn:Ei; [discriminate|]. injection E as <-.
  destruct (init_inv _ _ _ Ei) as (Hc & _ & _).
  destruct (access_n_inv n (mkComposer m None) (or_introl eq_refl)) as (_ & Hor & Hlt).
  cbn [model] in *.
  assert (Hf : flops_value m = 0).
  { unfold flops_value. rewrite Hc, H0. cbn. rewrite !Nat.mul_0_r. reflexivity. }
  rewrite Hf in Hor, Hlt. split; [|exact Hlt].
  destruct Hor as [-> | ->]; reflexivity.
Qed.

(** X15: from the freshly built wrapper, every access to [num_fwd_flops]
    (after any number of earlier accesses) returns
    [2 * n_params * max_seq_len + n_layers * 4 * d_model * max_seq_len ^ 2]
    and leaves the model unchanged; after the first access the cache holds
    that value, and the cached branch is taken exactly when it is nonzero. *)
Theorem num_fwd_flops_same_value c p st n :
  composer_init c p = inr st ->
  fst (num_fwd_flops (access_n n st))
    = 2 * n_params (params (model st)) * max_seq_len c
      + n_layers c * 4 * d_model c * max_seq_len c ^ 2
  /\ model (access_n n st) = model st
  /\ (0 < n ->
      num_fwd_flops_cache (access_n n st) = Some (fst (num_fwd_flops (access_n n st)))
      /\ truthy (num_fwd_flops_cache (access_n n st))
         = negb (fst (num_fwd_flops (access_n n st)) =? 0)).
Proof.
  intros E. unfold composer_init in E.
  destruct (init c p) as [e|m] eqn:Ei; [discriminate|]. injection E as <-.
  destruct (init_inv _ _ _ Ei) as (Hc & _ & _).
  destruct (access_n_inv n (mkComposer m None) (or_introl eq_refl)) as (Hm & Hor & Hlt).
  cbn [model] in *.
  destruct (num_fwd_flops_value (access_n n (mkComposer m None))) as (Hv & _ & _).
  { rewrite Hm. exact Hor. }
  rewrite Hm in Hv. rewrite Hv.
  assert (Hf : flops_value m = 2 * n_params (params m) * max_seq_len c
                               + n_layers c * 4 * d_model c * max_seq_len c ^ 2).
  { unfold flops_value. rewrite Hc. ring. }
  split; [exact Hf|]. split; [exact Hm|].
  intros Hn. rewrite (Hlt Hn). split; reflexivity.
Qed.

(** ** The module state is only read *)

Definition reads {A : Type} (c : M A) : Prop :=
  forall m r m', c m = inr (r, m') -> m' = m.

Lemma reads_ret {A : Type} (a : A) : reads (ret a).
Proof. intros m r m' E. now injection E. Qed.

Lemma reads_gets {A : Type} (f : Model -> A) : reads (gets f).
Proof. intros m r m' E. now injection E. Qed.

Lemma reads_raise {A : Type} e : reads (@raise A e).
Proof. intros m r m' E. discriminate. Qed.

Lemma reads_assert b : reads (assert b).
Proof. destruct b; [apply reads_ret|apply reads_raise]. Qed.

Lemma reads_lift {A : Type} (o : option A) : reads (lift o).
Proof. destruct o; [apply reads_ret|apply reads_raise]. Qed.

Lemma reads_lift_idx {A : Type} (o : option A) : reads (lift_idx o).
Proof. destruct o; [apply reads_ret|apply reads_raise]. Qed.

Lemma reads_bind {A B : Type} (c : M A) (f : A -> M B) :
  reads c -> (forall a, reads (f a)) -> reads (bind c f).
Proof.
  intros Hc Hf m r m' E. unfold bind in E.
  destruct (c m) as [e|[a m1]] eqn:Ec; [discriminate|].
  apply Hc in Ec. subst m1. eapply Hf; eauto.
Qed.

Lemma reads_buf_R name : reads (buf_R name).
Proof.
  unfold buf_R. apply reads_bind; [apply reads_gets|].
  intros [[t|t]|]; [apply reads_ret|apply reads_raise|apply reads_raise].
Qed.

Lemma reads_buf_B name : reads (buf_B name).
Proof.
  unfold buf_B. apply reads_bind; [apply reads_gets|].
  intros [[t|t]|]; [apply reads_raise|apply reads_ret|apply reads_raise].
Qed.

Ltac reads_tac :=
  repeat match goal with
  | |- reads (bind _ _) => apply reads_bind; [|intros ?]
  | |- reads (ret _) => apply reads_ret
  | |- reads (gets _) => apply reads_gets
  | |- reads (raise _) => apply reads_raise
  | |- reads (assert _) => apply reads_assert
  | |- reads (lift _) => apply reads_lift
  | |- reads (lift_idx _) => apply reads_lift_idx
  | |- reads (if ?b then _ else _) => destruct b
  | |- reads (match ?o with None => _ | Some _ => _ end) => destruct o
  | |- reads (match ?o with Some _ => _ | None => _ end) => destruct o
  | |- reads (buf_R _) => apply reads_buf_R
  | |- reads (buf_B _) => apply reads_buf_B
  | |- reads (let _ := _ in _) => cbv zeta
  end.

Lemma reads_build_attn_bias B S am bm : reads (build_attn_bias B S am bm).
Proof. unfold build_attn_bias. cbv zeta. reads_tac. Qed.

Lemma reads_forward_body layer_norm gelu emb_drop resid_drop attention ids am bm lgt :
  reads (forward_body layer_norm gelu emb_drop resid_drop attention ids am bm lgt).
Proof.
  unfold forward_body. cbv zeta. reads_tac.
  all: try apply reads_build_attn_bias.
Qed.

Lemma reads_forward layer_norm gelu emb_drop resid_drop attention ids am bm lgt :
  reads (forward layer_norm gelu emb_drop resid_drop attention ids am bm lgt).
Proof.
  unfold forward. cbv zeta. reads_tac. apply reads_forward_body.
Qed.

(** C7 (amended): [__init__] registers exactly three buffers, the two bias
    templates [alibi_mask] and [zeros_mask] and the boolean template
    [causal_mask]; a forward pass leaves the module, its parameters and
    every buffer, unchanged. *)
Theorem model_buffers_and_forward c p m :
  init c p = inr m ->
  map fst (buffers m) = ["alibi_mask"; "zeros_mask"; "causal_mask"]%string
  /\ forall layer_norm gelu emb_drop resid_drop attention ids am bm lgt r m',
       forward layer_norm gelu emb_drop resid_drop attention ids am bm lgt m = inr (r, m') ->
       m' = m.
Proof.
  intros Hinit. init_facts Hinit. split.
  - rewrite Hb. reflexivity.
  - intros until m'. apply reads_forward.
Qed.

(** C7 as stated fails: the initialised module holds three buffers, not two. *)
Lemma model_two_buffers_counterexample :
  ~ (forall c p m, init c p = inr m -> length (buffers m) = 2).
Proof.
  intros H.
  assert (E : exists m, init cfg_ex params_ex = inr m) by (eexists; reflexivity).
  destruct E as [m E]. pose proof (H _ _ _ E) as H2.
  destruct (init_inv _ _ _ E) as (_ & _ & Hb). rewrite Hb in H2. discriminate.
Qed.

(** C9: [forward] raises [AssertionError] for every input longer than
    [max_seq_len] (an empty batch of [0 x S] included); for inputs not longer, the check passes and the pass
    goes on with the body, and the slices [[:S, :S]] of every buffer of an
    initialised module have size [S]. *)
Theorem forward_length_check layer_norm gelu emb_drop resid_drop attention ids am bm lgt m :
  (max_seq_len (cfg m) < snd (size2 ids) ->
     forward layer_norm gelu emb_drop resid_drop attention ids am bm lgt m = inl AssertionError)
  /\ (snd (size2 ids) <= max_seq_len (cfg m) ->
      forward layer_norm gelu emb_drop resid_drop attention ids am bm lgt m
      = (xb <- forward_body layer_norm gelu emb_drop resid_drop attention ids am bm lgt ;;
         p <- gets params ;;
         ret (linear_act (wte p) None (fst xb), snd xb)) m
      /\ forall c p, init c p = inr m ->
         Forall (fun nb => match snd nb with
                           | BufR t => d2 (slice2 t (snd (size2 ids))) = snd (size2 ids)
                                       /\ d3 (slice2 t (snd (size2 ids))) = snd (size2 ids)
                           | BufB t => d2 (slice2 t (snd (size2 ids))) = snd (size2 ids)
                                       /\ d3 (slice2 t (snd (size2 ids))) = snd (size2 ids)
                           end) (buffers m)).
Proof.
  split.
  - intros Hlt. unfold forward, bind, gets, assert, raise.
    destruct (Nat.leb_spec (snd (size2 ids)) (max_seq_len (cfg m))); [lia|reflexivity].
  - intros Hle. split.
    + unfold forward at 1. rewrite (bind_ok _ _ _ _ (gets_ok _ _)). cbv beta.
      unfold assert. destruct (Nat.leb_spec (snd (size2 ids)) (max_seq_len (cfg m))); [|lia].
      rewrite (bind_ok _ _ _ _ (ret_ok tt m)). reflexivity.
    + intros c p Hinit. init_facts Hinit. subst c. rewrite Hb.
      repeat apply Forall_cons; try apply Forall_nil; cbn; unfold causal_template, size2 in *; cbn in *; split; lia.
Qed.

(** ** The output projection *)

Lemma dot_as_sum u v :
  length u = length v ->
  dot u v = sum_R (map (fun j => (nth j u 0 * nth j v 0)%R) (seq 0 (length u))).
Proof.
  revert v. induction u as [|a u IH]; intros [|b v] Hl; cbn in Hl; try discriminate.
  - reflexivity.
  - injection Hl as Hl. unfold dot in *. cbn.
    rewrite (IH v Hl), <- seq_shift, map_map. reflexivity.
Qed.

Lemma act_flat_linear W x :
  act_flat (linear_act W None x) = map (linear_row W None) (act_flat x).
Proof.
  destruct x as [h|r]; cbn; [|reflexivity].
  unfold map_rows. rewrite concat_map. reflexivity.
Qed.

Lemma forward_inv layer_norm gelu emb_drop resid_drop attention ids am bm lgt m r m' :
  forward layer_norm gelu emb_drop resid_drop attention ids am bm lgt m = inr (r, m') ->
  m' = m /\ exists x, forward_body layer_norm gelu emb_drop resid_drop attention ids am bm lgt m
                      = inr ((x, snd r), m)
                    /\ fst r = linear_act (wte (params m)) None x.
Proof.
  intros H. pose proof (reads_forward _ _ _ _ _ _ _ _ _ _ _ _ H) as ->. split; [reflexivity|].
  unfold forward, bind, gets, assert, ret, raise in H.
  destruct (snd (size2 ids) <=? max_seq_len (cfg m)); [|discriminate].
  destruct (forward_body layer_norm gelu emb_drop resid_drop attention ids am bm lgt m)
    as [e|[[x b] m1]] eqn:E; [discriminate|].
  pose proof (reads_forward_body _ _ _ _ _ _ _ _ _ _ _ _ E) as ->.
  injection H as <-. exists x. split; reflexivity.
Qed.

(** C4: the logits returned by [forward] are the final hidden states
    (the output of [forward_body]: [ln_f], then the optional row selection)
    times the transpose of the token-embedding weight [wte] of the module,
    the same matrix the embedding lookup uses, with no bias term: entry
    [(i, v)] is [sum_j x_i[j] * wte[v][j]]; the module is left unchanged,
    and the parameter count is made of [wte], the optional [wpe], the blocks
    and [ln_f], with no separate output projection. *)
Theorem forward_logits_tied layer_norm gelu emb_drop resid_drop attention ids am bm lgt
    m logits bias m' :
  forward layer_norm gelu emb_drop resid_drop attention ids am bm lgt m
    = inr ((logits, bias), m') ->
  m' = m
  /\ (exists x,
       forward_body layer_norm gelu emb_drop resid_drop attention ids am bm lgt m
         = inr ((x, bias), m)
       /\ logits = linear_act (wte (params m)) None x
       /\ act_flat logits = map (linear_row (wte (params m)) None) (act_flat x)
       /\ forall i v, i < length (act_flat x) -> v < length (wte (params m)) ->
            length (nth i (act_flat x) []) = length (nth v (wte (params m)) []) ->
            length (nth i (act_flat logits) []) = length (wte (params m))
            /\ nth v (nth i (act_flat logits) []) 0%R
               = sum_R (map (fun j => (nth j (nth i (act_flat x) []) 0
                                       * nth j (nth v (wte (params m)) []) 0)%R)
                            (seq 0 (length (nth i (act_flat x) [])))))
  /\ n_params (params m)
     = numel2 (wte (params m))
       + match wpe (params m) with Some w => numel2 w | None => 0 end
       + fold_right plus 0 (map numel_block (blocks (params m)))
       + numel_ln (ln_f (params m)).
Proof.
  intros H. destruct (forward_inv _ _ _ _ _ _ _ _ _ _ _ _ H) as [Hm [x [Hb Hl]]].
  cbn in Hb, Hl. split; [exact Hm|]. split; [|reflexivity].
  exists x. split; [exact Hb|]. split; [exact Hl|].
  assert (Hf : act_flat logits = map (linear_row (wte (params m)) None) (act_flat x))
    by (rewrite Hl; apply act_flat_linear).
  split; [exact Hf|].
  intros i v Hi Hv Hlen. rewrite Hf.
  rewrite (nth_indep _ [] (linear_row (wte (params m)) None []))
    by (rewrite length_map; exact Hi).
  rewrite map_nth. unfold linear_row. split.
  - apply length_map.
  - rewrite (nth_indep _ 0%R (dot (nth i (act_flat x) []) [])) by (rewrite length_map; exact Hv).
    rewrite (map_nth (fun w => dot (nth i (act_flat x) []) w)).
    apply dot_as_sum. exact Hlen.
Qed.

(** ** Witnesses of the claims on the model and its wrapper *)

Lemma forward_logits_tied_witness :
  exists logits bias,
    forward id_ln id_gelu id_drop id_drop id_attn (mkIT [[0; 2]]%Z 2) None None None model_tied
      = inr ((logits, bias), model_tied)
    /\ exists x, logits = linear_act (wte (params model_tied)) None x.
Proof.
  eassert (Hf : forward id_ln id_gelu id_drop id_drop id_attn (mkIT [[0; 2]]%Z 2) None None None
                  model_tied = inr ((_, _), model_tied)).
  { cbv. reflexivity. }
  destruct (forward_logits_tied _ _ _ _ _ _ _ _ _ _ _ _ _ Hf) as (_ & (x & _ & Hl & _) & _).
  do 2 eexists. split; [exact Hf|]. exists x. exact Hl.
Defined.

Lemma next_token_targets_and_loss_witness :
  get_targets (mkBatch (mkIT [[1; 2; 3]; [4; 5; 6]]%Z 3) None None None)
  = inr (T2 [[2; 3; -100]; [5; 6; -100]]%Z).
Proof.
  pose proof (next_token_targets_and_loss (mkIT [[1; 2; 3]; [4; 5; 6]]%Z 3) None None
                ltac:(cbn; lia) ltac:(repeat constructor)) as H.
  cbv zeta in H. destruct H as [H _]. exact H.
Defined.

Lemma embedding_fraction_scales_gradient_witness :
  val (embedding_fraction_step (1 # 2) (mkDual 3 4)) = 3%R
  /\ tan (embedding_fraction_step (1 # 2) (mkDual 3 4)) = (4 * Q2R (1 # 2))%R.
Proof.
  destruct (embedding_fraction_scales_gradient (1 # 2) (mkDual 3 4)
              ltac:(reflexivity) ltac:(vm_compute; intro H; discriminate H)) as (Hv & Ht & _).
  split; [exact Hv | exact Ht].
Defined.

Lemma model_buffers_and_forward_witness :
  exists m, init cfg_ex params_ex = inr m
    /\ map fst (buffers m) = ["alibi_mask"; "zeros_mask"; "causal_mask"]%string.
Proof.
  eexists; split; [reflexivity|].
  apply (proj1 (model_buffers_and_forward cfg_ex params_ex _ eq_refl)).
Defined.

Lemma forward_length_check_witness :
  forward id_ln id_gelu id_drop id_drop id_attn (mkIT [[0; 0; 0; 0; 0]]%Z 5) None None None model_tied
  = inl AssertionError
  /\ forward id_ln id_gelu id_drop id_drop id_attn (mkIT [] 5) None None None model_tied
     = inl AssertionError.
Proof.
  split.
  - apply (proj1 (forward_length_check id_ln id_gelu id_drop id_drop id_attn
                    (mkIT [[0; 0; 0; 0; 0]]%Z 5) None None None model_tied)).
    vm_compute. lia.
  - apply (proj1 (forward_length_check id_ln id_gelu id_drop id_drop id_attn
                    (mkIT [] 5) None None None model_tied)).
    vm_compute. lia.
Defined.

Lemma num_fwd_flops_same_value_witness :
  exists st, composer_init cfg_ex params_tied = inr st
    /\ fst (num_fwd_flops (access_n 2 st))
       = 2 * n_params (params (model st)) * 4 + 1 * 4 * 4 * 4 ^ 2.
Proof.
  eexists; split; [reflexivity|].
  apply (proj1 (num_fwd_flops_same_value cfg_ex params_tied _ 2 eq_refl)).
Defined.

(** ** Properties of the rest of the module *)


Lemma arange_diff S a b : (arange_from S a - arange_from S b = INR a - INR b)%R.
Proof. unfold arange_from. ring. Qed.

(** X4: [alibi_bias] with [full=False] has shape [1 x n_heads x 1 x S], and
    its single row is the last query row of the full template. *)
Theorem alibi_bias_row n S bm t t' :
  alibi_bias n S true bm = inr t -> alibi_bias n S false bm = inr t' ->
  d0 t' = 1 /\ d1 t' = n /\ d2 t' = 1 /\ d3 t' = S
  /\ forall h k, k < S -> at4 t' 0 h 0 k = at4 t 0 h (S - 1) k.
Proof.
  unfold alibi_bias. destruct (n =? 0); [discriminate|].
  intros E E'; injection E as <-; injection E' as <-.
  cbn. do 4 (split; [reflexivity|]). intros h k Hk.
  rewrite arange_diff. f_equal.
  assert (Hk' : (INR k <= INR (S - 1))%R) by (apply le_INR; lia).
  rewrite minus_INR in * by lia. change (INR 1) with 1%R in *. rewrite Rabs_left1 by lra.
  unfold arange_from. cbn. ring.
Qed.

Lemma option_map_list_None {A B : Type} (f : A -> option B) l i d :
  i < length l -> f (nth i l d) = None -> option_map_list f l = None.
Proof.
  revert i. induction l as [|a l IH]; intros i Hi Hf; cbn in *; [lia|].
  destruct i as [|i].
  - rewrite Hf. reflexivity.
  - rewrite (IH i) by (lia || exact Hf). destruct (f a); reflexivity.
Qed.

(** X8: an input id that is negative or not below the number of rows of
    [wte] makes [forward] raise [IndexError] (once the length check
    passes). *)
Theorem forward_out_of_vocab layer_norm gelu emb_drop resid_drop attention ids am bm lgt m b i :
  snd (size2 ids) <= max_seq_len (cfg m) ->
  b < length ids -> i < length (nth b ids []) ->
  (entry ids b i < 0 \/ Z.of_nat (length (wte (params m))) <= entry ids b i)%Z ->
  forward layer_norm gelu emb_drop resid_drop attention ids am bm lgt m = inl IndexError.
Proof.
  intros HS Hb Hi Hv.
  assert (E : embed (wte (params m)) ids = None).
  { unfold embed. apply (option_map_list_None _ _ b [] Hb).
    apply (option_map_list_None _ _ i 0%Z Hi).
    unfold embed_one. unfold entry in Hv.
    destruct Hv as [Hv|Hv].
    - destruct (Z.leb_spec 0 (nth i (nth b ids []) 0%Z)); [lia|reflexivity].
    - destruct (Z.ltb_spec (nth i (nth b ids []) 0%Z) (Z.of_nat (length (wte (params m)))));
        [lia|]. rewrite andb_false_r. reflexivity. }
  unfold forward, forward_body, bind, gets, assert, lift_idx, raise, ret.
  destruct (Nat.leb_spec (snd (size2 ids)) (max_seq_len (cfg m))); [|lia].
  rewrite E. reflexivity.
Qed.

(** X6: on an initialised module, [build_attn_bias] raises [AssertionError]
    for a bidirectional mask that is not [B x S], and for an attention
    mask with a zero entry that is not [B x S] (with no bidirectional
    mask). *)
Theorem build_attn_bias_shape_errors c p m B S am bm :
  init c p = inr m ->
  (forall x, bm = Some x -> shape_is x B S = false ->
     build_attn_bias B S am bm m = inl AssertionError)
  /\ (forall y, bm = None -> am = Some y -> all_nonzero y = false -> shape_is y B S = false ->
     build_attn_bias B S am bm m = inl AssertionError).
Proof.
  intros Hinit. destruct (init_inv _ _ _ Hinit) as (_ & _ & Hb).
  split.
  - intros x -> Hx. unfold build_attn_bias, bind, gets, buf_R, buf_B, assert, ret, raise.
    destruct (alibi m); cbn - [slice2 broadcast2]; rewrite Hb; cbn - [slice2 broadcast2];
      rewrite ?Hb; cbn - [slice2 broadcast2];
      rewrite Hx; reflexivity.
  - intros y -> -> Hy Hs. unfold build_attn_bias, bind, gets, buf_R, buf_B, assert, ret, raise.
    destruct (alibi m); cbn - [slice2 broadcast2]; rewrite Hb; cbn - [slice2 broadcast2];
      rewrite ?Hb; cbn - [slice2 broadcast2];
      rewrite Hy, Hs; reflexivity.
Qed.

Lemma bind_inv {A B : Type} (c : M A) (f : A -> M B) m b m' :
  bind c f m = inr (b, m') -> exists a m1, c m = inr (a, m1) /\ f a m1 = inr (b, m').
Proof.
  unfold bind. destruct (c m) as [e|[a m1]]; [discriminate|]. intros H. eauto.
Qed.

Lemma gets_inv {A : Type} (f : Model -> A) m a m' :
  gets f m = inr (a, m') -> a = f m /\ m' = m.
Proof. unfold gets. intros H. injection H. auto. Qed.

Lemma ret_inv {A : Type} (x : A) m a m' : ret x m = inr (a, m') -> a = x /\ m' = m.
Proof. unfold ret. intros H. injection H. auto. Qed.

Lemma lift_idx_inv {A : Type} (o : option A) m a m' :
  lift_idx o m = inr (a, m') -> o = Some a /\ m' = m.
Proof.
  unfold lift_idx, ret, raise. destruct o; [|discriminate]. intros H. injection H as -> ->. auto.
Qed.

Lemma option_map_list_Forall2 {A B : Type} (f : A -> option B) l l' :
  option_map_list f l = Some l' -> Forall2 (fun a b => f a = Some b) l l'.
Proof.
  revert l'. induction l as [|a l IH]; intros l' H; cbn in H.
  - injection H as <-. constructor.
  - destruct (f a) eqn:Ea; [|discriminate].
    destruct (option_map_list f l) eqn:El; [|discriminate].
    injection H as <-. constructor; [exact Ea|]. apply IH. reflexivity.
Qed.

Lemma shape2_Forall2 {A B : Type} (P : list A -> list B -> Prop) l l' Bn S :
  Forall2 P l l' -> (forall a b, P a b -> length b = length a) ->
  shape2 l Bn S -> shape2 l' Bn S.
Proof.
  intros HF Hl [HB HS]. split.
  - rewrite <- (Forall2_length HF). exact HB.
  - clear HB. induction HF as [|a b l l' Hab HF IH]; constructor; inversion HS; subst.
    + rewrite (Hl _ _ Hab). auto.
    + apply IH; auto.
Qed.

Lemma embed_shape W ids tok Bn S :
  embed W ids = Some tok -> shape2 ids Bn S -> shape2 tok Bn S.
Proof.
  intros E. apply shape2_Forall2 with (P := fun row row' =>
    option_map_list (embed_one W) row = Some row').
  - apply option_map_list_Forall2. exact E.
  - intros a b Hab. apply option_map_list_Forall2 in Hab.
    symmetry. apply (Forall2_length Hab).
Qed.

Lemma shape2_map {A B : Type} (g : list A -> list B) x Bn S :
  (forall r, length (g r) = length r) -> shape2 x Bn S -> shape2 (map g x) Bn S.
Proof.
  intros Hg [HB HS]. split; [rewrite length_map; exact HB|].
  apply Forall_map. eapply Forall_impl; [|exact HS]. intros r Hr. cbn. rewrite Hg. exact Hr.
Qed.

Lemma add_pos_shape tok pos Bn S :
  shape2 tok Bn S -> length (hd [] pos) = S -> shape2 (add_pos tok pos) Bn S.
Proof.
  intros [HB HS] Hp. split; [unfold add_pos; rewrite length_map; exact HB|].
  unfold add_pos. apply Forall_map. eapply Forall_impl; [|exact HS].
  intros r Hr. cbn. rewrite length_map, length_combine, Hr, Hp. apply Nat.min_id.
Qed.

Lemma hadd_shape x y Bn S : shape2 x Bn S -> shape2 y Bn S -> shape2 (hadd x y) Bn S.
Proof.
  intros [Hx HSx] [Hy HSy]. unfold hadd. split.
  - rewrite length_map, length_combine, Hx, Hy. apply Nat.min_id.
  - apply Forall_map. apply Forall_forall. intros [r s] Hin. cbn.
    rewrite length_map, length_combine.
    pose proof (in_combine_l _ _ _ _ Hin) as Hr. pose proof (in_combine_r _ _ _ _ Hin) as Hs.
    rewrite Forall_forall in HSx, HSy. rewrite (HSx _ Hr), (HSy _ Hs). apply Nat.min_id.
Qed.

Section Shapes.
Variable layer_norm : LNParams -> list R -> list R.
Variable gelu : R -> R.
Variable emb_drop resid_drop : Hid -> Hid.
Variable attention : list (list (list R)) -> Hid -> T4 ext -> Hid.
Hypothesis emb_drop_shape : forall x Bn S, shape2 x Bn S -> shape2 (emb_drop x) Bn S.
Hypothesis resid_drop_shape : forall x Bn S, shape2 x Bn S -> shape2 (resid_drop x) Bn S.
Hypothesis attention_shape : forall w x mask Bn S,
  shape2 x Bn S -> shape2 (attention w x mask) Bn S.

Lemma block_forward_shape x blk mask Bn S :
  shape2 x Bn S -> shape2 (block_forward layer_norm gelu resid_drop attention x blk mask) Bn S.
Proof.
  intros Hx. unfold block_forward, map_rows.
  assert (H1 : shape2 (hadd x (resid_drop (attention (attn_w blk)
                 (map (map (layer_norm (ln_1 blk))) x) mask))) Bn S).
  { apply hadd_shape; [exact Hx|]. apply resid_drop_shape, attention_shape.
    apply shape2_map; [intros; apply length_map|exact Hx]. }
  apply hadd_shape; [exact H1|]. apply resid_drop_shape.
  apply shape2_map; [intros; apply length_map|].
  apply shape2_map; [intros; apply length_map|exact H1].
Qed.

Lemma blocks_shape bl x mask Bn S :
  shape2 x Bn S ->
  shape2 (fold_left (fun x blk => block_forward layer_norm gelu resid_drop attention x blk mask)
            bl x) Bn S.
Proof.
  revert x. induction bl as [|blk bl IH]; intros x Hx; [exact Hx|].
  cbn. apply IH. apply block_forward_shape. exact Hx.
Qed.

Lemma forward_body_hidden (ids : ITensor2) am bm lgt m x bias m' :
  shape2 ids (fst (size2 ids)) (snd (size2 ids)) ->
  forward_body layer_norm gelu emb_drop resid_drop attention ids am bm lgt m
    = inr ((x, bias), m') ->
  exists h, shape2 h (fst (size2 ids)) (snd (size2 ids))
    /\ match lgt with
       | None => x = A3 h
       | Some l => shape_is l (fst (size2 ids)) (snd (size2 ids)) = true
                   /\ x = A2 (select_rows h l)
       end.
Proof.
  intros Hids H. unfold forward_body in H. cbv zeta in H.
  set (Bn := fst (size2 ids)) in *. set (S := snd (size2 ids)) in *. clearbody Bn S.
  apply bind_inv in H as (p & m1 & Hp & H). apply gets_inv in Hp as [-> ->].
  apply bind_inv in H as (tok & m2 & Htok & H). apply lift_idx_inv in Htok as [Htok ->].
  apply bind_inv in H as (al & m3 & Hal & H). apply gets_inv in Hal as [-> ->].
  apply bind_inv in H as (x0 & m4 & Hx0 & H).
  assert (Hs0 : shape2 x0 Bn S /\ m4 = m).
  { destruct (alibi m).
    - apply ret_inv in Hx0 as [-> ->]. split; [|reflexivity].
      apply (embed_shape _ _ _ _ _ Htok Hids).
    - destruct (wpe (params m)) as [w|]; [|discriminate].
      apply bind_inv in Hx0 as (pe & m5 & Hpe & Hx0). apply lift_idx_inv in Hpe as [Hpe ->].
      apply ret_inv in Hx0 as [-> ->]. split; [|reflexivity].
      apply add_pos_shape; [apply (embed_shape _ _ _ _ _ Htok Hids)|].
      unfold embed in Hpe. cbn in Hpe.
      destruct (option_map_list (embed_one w) (map Z.of_nat (seq 0 S))) eqn:Er;
        [|discriminate].
      injection Hpe as <-. cbn. apply option_map_list_Forall2, Forall2_length in Er.
      rewrite <- Er, length_map, length_seq. reflexivity. }
  destruct Hs0 as [Hs0 ->].
  apply bind_inv in H as (f & m5 & Hf & H). apply gets_inv in Hf as [-> ->].
  apply bind_inv in H as (ab & m6 & Hab & H).
  pose proof (reads_build_attn_bias _ _ _ _ _ _ _ Hab) as ->.
  set (x1 := if Qeq_bool (embedding_fraction m) 1 then emb_drop x0
             else emb_drop (frac_values (Q2R (embedding_fraction m)) x0)) in *.
  assert (Hs1 : shape2 x1 Bn S).
  { unfold x1. destruct (Qeq_bool (embedding_fraction m) 1); apply emb_drop_shape; [exact Hs0|].
    unfold frac_values. apply shape2_map; [intros; apply length_map|exact Hs0]. }
  set (x2 := map_rows (layer_norm (ln_f (params m)))
               (fold_left (fun x blk => block_forward layer_norm gelu resid_drop attention x blk ab)
                  (blocks (params m)) x1)) in *.
  assert (Hs2 : shape2 x2 Bn S).
  { unfold x2, map_rows. apply shape2_map; [intros; apply length_map|].
    apply blocks_shape. exact Hs1. }
  exists x2. split; [exact Hs2|].
  apply bind_inv in H as (o & m7 & Ho & H). apply ret_inv in H as [Hx _].
  injection Hx as -> ->.
  destruct lgt as [l|].
  - apply bind_inv in Ho as (u & m8 & Hu & Ho). apply ret_inv in Ho as [-> _].
    unfold assert, ret, raise in Hu.
    destruct (shape_is l Bn S); [|discriminate]. split; reflexivity.
  - apply ret_inv in Ho as [-> _]. reflexivity.
Qed.

Lemma shape_is_shape2 l Bn S : shape_is l Bn S = true -> shape2 l Bn S.
Proof.
  unfold shape_is. rewrite andb_true_iff, Nat.eqb_eq, forallb_forall. intros [HB HS].
  split; [exact HB|]. apply Forall_forall. intros r Hr. apply Nat.eqb_eq, HS, Hr.
Qed.

Lemma shape2_concat {A : Type} (x : list (list A)) Bn S :
  shape2 x Bn S -> length (concat x) = Bn * S.
Proof.
  intros [HB HS]. subst Bn. induction HS as [|r x Hr HS IH]; [reflexivity|].
  cbn. rewrite length_app, Hr, IH. lia.
Qed.

Lemma filter_combine_snd_length {A : Type} (q : Z -> bool) (a : list A) b :
  length a = length b ->
  length (filter (fun rv => q (snd rv)) (combine a b)) = length (filter q b).
Proof.
  revert b. induction a as [|x a IH]; intros [|y b] H; cbn in *; try discriminate; [reflexivity|].
  destruct (q y); cbn; rewrite IH by lia; reflexivity.
Qed.

Lemma linear_rows_shape W h Bn S :
  shape2 h Bn S ->
  shape2 (map_rows (linear_row W None) h) Bn S
  /\ Forall (Forall (fun v => length v = length W)) (map_rows (linear_row W None) h).
Proof.
  intros Hh. split.
  - unfold map_rows. apply shape2_map; [intros; apply length_map|exact Hh].
  - unfold map_rows. apply Forall_forall. intros r Hr. apply in_map_iff in Hr as (r0 & <- & _).
    apply Forall_forall. intros v Hv. apply in_map_iff in Hv as (v0 & <- & _).
    unfold linear_row. apply length_map.
Qed.

(** X9: when the dropouts and the attention keep the [B x S] shape, a
    successful [forward] leaves the module unchanged and returns logits of
    shape [B x S x V] ([V] the rows of [wte]) without loss-generating
    tokens, and with them a [B x S] token mask and one row of [V] logits
    per nonzero token. *)
Theorem forward_output_shape (ids : ITensor2) am bm lgt m logits bias m' :
  shape2 ids (length ids) (snd (size2 ids)) ->
  forward layer_norm gelu emb_drop resid_drop attention ids am bm lgt m
    = inr ((logits, bias), m') ->
  m' = m
  /\ match lgt with
     | None => exists o, logits = A3 o
                 /\ shape2 o (length ids) (snd (size2 ids))
                 /\ Forall (Forall (fun v => length v = length (wte (params m)))) o
     | Some l => shape2 l (length ids) (snd (size2 ids))
                 /\ exists r, logits = A2 r
                 /\ length r = length (filter (fun v => negb (v =? 0)%Z) (concat l))
                 /\ Forall (fun v => length v = length (wte (params m))) r
     end.
Proof.
  intros Hids H. destruct (forward_inv _ _ _ _ _ _ _ _ _ _ _ _ H) as [Hm [x [Hb Hl]]].
  cbn in Hb, Hl. split; [exact Hm|].
  destruct (forward_body_hidden ids am bm lgt m x bias m Hids Hb) as (h & Hh & Hx).
  destruct lgt as [l|].
  - destruct Hx as [Hs ->]. apply shape_is_shape2 in Hs.
    split; [exact Hs|]. subst logits. cbn.
    eexists; split; [reflexivity|]. split.
    + rewrite length_map. unfold select_rows. rewrite length_map.
      apply (filter_combine_snd_length (fun v => negb (v =? 0)%Z)).
      rewrite (shape2_concat _ _ _ Hh), (shape2_concat _ _ _ Hs). reflexivity.
    + apply Forall_forall. intros v Hv. apply in_map_iff in Hv as (v0 & <- & _).
      unfold linear_row. apply length_map.
  - subst x logits. cbn. eexists; split; [reflexivity|].
    apply linear_rows_shape. exact Hh.
Qed.

Lemma composer_forward_inv batch m logits m' :
  composer_forward layer_norm gelu emb_drop resid_drop attention batch m = inr (logits, m') ->
  exists bias, forward layer_norm gelu emb_drop resid_drop attention (input_ids batch)
      (attention_mask_of batch) (bidirectional_mask_of batch)
      (match labels batch with
       | Some lab => Some (map (map (fun v => if (v =? -100)%Z then 0%Z else 1%Z)) lab)
       | None => None
       end) m = inr ((logits, bias), m').
Proof.
  unfold composer_forward. intros H. apply bind_inv in H as ([lg b] & m1 & Hf & H).
  apply ret_inv in H as [-> ->]. exists b. exact Hf.
Qed.

Lemma select_rows_labels (a : list (list R)) (b : list Z) :
  map fst (filter (fun rv => negb (snd rv =? 0)%Z)
             (combine a (map (fun v => if (v =? -100)%Z then 0%Z else 1%Z) b)))
  = map fst (filter (fun xl => negb (snd xl =? -100)%Z) (combine a b)).
Proof.
  revert b. induction a as [|x a IH]; intros [|y b]; cbn; try reflexivity.
  destruct (Z.eqb_spec y (-100)); cbn; rewrite IH; reflexivity.
Qed.

Lemma filter_combine_snd {A : Type} (q : Z -> bool) (a : list A) b :
  length a = length b ->
  map snd (filter (fun rv => q (snd rv)) (combine a b)) = filter q b.
Proof.
  revert b. induction a as [|x a IH]; intros [|y b] H; cbn in *; try discriminate; [reflexivity|].
  destruct (q y); cbn; rewrite IH by lia; reflexivity.
Qed.

(** X10: for a batch with labels, a successful [ComposerMosaicModel.forward]
    has labels of the input's shape; its logits are the tied projection of
    the hidden states at the positions whose label is not [-100], in
    order, [get_targets] gives those labels in the same order, and [loss]
    passes its row check and is the cross-entropy of the two. *)
Theorem composer_forward_loss_labels batch lab m logits m' :
  shape2 (input_ids batch) (length (input_ids batch)) (snd (size2 (input_ids batch))) ->
  labels batch = Some lab ->
  composer_forward layer_norm gelu emb_drop resid_drop attention batch m = inr (logits, m') ->
  m' = m
  /\ shape2 lab (length (input_ids batch)) (snd (size2 (input_ids batch)))
  /\ exists h : Hid,
       shape2 h (length (input_ids batch)) (snd (size2 (input_ids batch)))
       /\ let kept := filter (fun xl => negb (snd xl =? -100)%Z) (combine (concat h) (concat lab)) in
          logits = A2 (map (linear_row (wte (params m)) None) (map fst kept))
          /\ get_targets batch = inr (T1 (map snd kept))
          /\ loss logits batch = cross_entropy (act_flat logits) (map snd kept).
Proof.
  intros Hids Hlab H. apply composer_forward_inv in H as [bias H]. rewrite Hlab in H.
  destruct (forward_inv _ _ _ _ _ _ _ _ _ _ _ _ H) as [Hm [x [Hb Hl]]].
  cbn [fst snd] in Hb, Hl. split; [exact Hm|].
  destruct (forward_body_hidden _ _ _ _ _ _ _ _ Hids Hb) as (h & Hh & Hs & ->).
  apply shape_is_shape2 in Hs.
  assert (Hs' : shape2 lab (length (input_ids batch)) (snd (size2 (input_ids batch)))).
  { destruct Hs as [HB HS]. split; [rewrite length_map in HB; exact HB|].
    apply Forall_map in HS. eapply Forall_impl; [|exact HS]. intros r Hr.
    cbv beta in Hr. rewrite length_map in Hr. exact Hr. }
  split; [exact Hs'|]. exists h. split; [exact Hh|]. cbv zeta.
  assert (Hlen : length (concat h) = length (concat lab))
    by (rewrite (shape2_concat _ _ _ Hh), (shape2_concat _ _ _ Hs'); reflexivity).
  assert (Hsel : select_rows h (map (map (fun v => if (v =? -100)%Z then 0%Z else 1%Z)) lab)
                 = map fst (filter (fun xl => negb (snd xl =? -100)%Z)
                              (combine (concat h) (concat lab)))).
  { unfold select_rows. rewrite <- concat_map. apply select_rows_labels. }
  assert (Hlg : logits = A2 (map (linear_row (wte (params m)) None)
                  (map fst (filter (fun xl => negb (snd xl =? -100)%Z)
                              (combine (concat h) (concat lab)))))).
  { rewrite Hl. cbn. rewrite Hsel. reflexivity. }
  assert (Ht : get_targets batch
               = inr (T1 (map snd (filter (fun xl => negb (snd xl =? -100)%Z)
                                     (combine (concat h) (concat lab)))))).
  { unfold get_targets. rewrite Hlab. do 2 f_equal. symmetry.
    apply (filter_combine_snd (fun v => negb (v =? -100)%Z)). exact Hlen. }
  split; [exact Hlg|]. split; [exact Ht|].
  unfold loss. rewrite Ht. rewrite Hlg. cbn [act_rows targets_rows act_flat targets_flat].
  rewrite !length_map, Nat.eqb_refl. reflexivity.
Qed.

(** X11: for a batch without labels and [S > 0], the logits of a successful
    [ComposerMosaicModel.forward] are [B x S] projections of the hidden
    states, and [loss] passes its row check and is the cross-entropy of
    the flattened logits against the next tokens, [-100] last. *)
Theorem composer_forward_loss_next_token batch m logits m' :
  shape2 (input_ids batch) (length (input_ids batch)) (snd (size2 (input_ids batch))) ->
  0 < snd (size2 (input_ids batch)) ->
  labels batch = None ->
  composer_forward layer_norm gelu emb_drop resid_drop attention batch m = inr (logits, m') ->
  m' = m
  /\ exists h : Hid,
       shape2 h (length (input_ids batch)) (snd (size2 (input_ids batch)))
       /\ logits = A3 (map_rows (linear_row (wte (params m)) None) h)
       /\ loss logits batch
          = cross_entropy (concat (map_rows (linear_row (wte (params m)) None) h))
              (concat (map (fun row => tl row ++ [(-100)%Z]) (input_ids batch))).
Proof.
  intros Hids HS Hlab H. apply composer_forward_inv in H as [bias H]. rewrite Hlab in H.
  destruct (forward_inv _ _ _ _ _ _ _ _ _ _ _ _ H) as [Hm [x [Hb Hl]]].
  cbn [fst snd] in Hb, Hl. split; [exact Hm|].
  destruct (forward_body_hidden _ _ _ _ _ _ _ _ Hids Hb) as (h & Hh & ->).
  exists h. split; [exact Hh|]. cbn in Hl. split; [exact Hl|].
  destruct batch as [ids lb am bm]. cbn in *. subst lb.
  unfold loss. rewrite (get_targets_no_labels ids am bm HS (proj2 Hids)). rewrite Hl.
  cbn [act_rows targets_rows act_flat targets_flat].
  unfold map_rows. rewrite !length_map, (proj1 Hh), Nat.eqb_refl. reflexivity.
Qed.
End Shapes.

(** X12: [TorchAttention.forward] passes the attention module a 3-D mask of
    [batch_dim * n_heads] planes of [S x S] whose plane [b * n_heads + h]
    is the bias of batch element [b] and head [h]; without per-batch masks
    there are [n_heads] planes, whatever the batch size. *)
Theorem torch_attention_mask c p m B S am bm (mhsa : Hid -> Hid -> Hid -> T3 ext -> Hid) x :
  init c p = inr m -> S <= max_seq_len c ->
  (forall y, bm = Some y -> shape_is y B S = true) ->
  (forall y, am = Some y -> all_nonzero y = false -> shape_is y B S = true) ->
  exists t v, build_attn_bias B S am bm m = inr (t, m)
    /\ torch_attention_forward mhsa x t = mhsa x x x v
    /\ e0 v = batch_dim B am bm * n_heads c /\ e1 v = S /\ e2 v = S
    /\ forall b h q k, b < batch_dim B am bm -> h < n_heads c -> q < S -> k < S ->
         at3 v (b * n_heads c + h) q k
         = where_ninf (allowed am bm b q k) (template_value c h q k).
Proof.
  intros Hinit HS Hbm Ham.
  destruct (build_attn_bias_spec c p m B S am bm Hinit HS Hbm Ham)
    as (t & Et & H0 & H1 & H2 & H3 & Hat).
  destruct (init_inv _ _ _ Hinit) as (_ & Hh & _).
  exists t, (view_heads t). split; [exact Et|]. split; [reflexivity|].
  cbn. rewrite H0, H1, H2, H3. split; [reflexivity|]. split; [reflexivity|]. split; [reflexivity|].
  intros b h q k Hb Hhl Hq Hk.
  assert (Hd : (b * n_heads c + h) / n_heads c = b).
  { rewrite Nat.div_add_l by exact Hh. rewrite Nat.div_small by exact Hhl. lia. }
  assert (Hm : (b * n_heads c + h) mod n_heads c = h).
  { rewrite Nat.add_comm, Nat.Div0.mod_add. apply Nat.mod_small. exact Hhl. }
  rewrite Hd, Hm. apply Hat; assumption.
Qed.




Lemma bdim_neq a b : a <> b -> a <> 1 -> b <> 1 -> bdim a b = None.
Proof.
  intros H1 H2 H3. unfold bdim.
  destruct (Nat.eqb_spec a b); [contradiction|].
  destruct (Nat.eqb_spec a 1); [contradiction|].
  destruct (Nat.eqb_spec b 1); [contradiction|]. reflexivity.
Qed.

(** X7: called with [seq_length > max_seq_len], [build_attn_bias] without
    masks returns a bias of size [max_seq_len] (the slices are clamped),
    and with a bidirectional mask it raises a broadcasting [RuntimeError]
    (when neither [max_seq_len] nor [seq_length] is 1). *)
Theorem build_attn_bias_beyond_max c p m B S am x :
  init c p = inr m -> max_seq_len c < S ->
  (exists t, build_attn_bias B S None None m = inr (t, m)
             /\ d2 t = max_seq_len c /\ d3 t = max_seq_len c)
  /\ (max_seq_len c <> 1 -> S <> 1 -> shape_is x B S = true ->
      build_attn_bias B S am (Some x) m = inl RuntimeError).
Proof.
  intros Hinit HS. destruct (init_inv _ _ _ Hinit) as (Hc & _ & Hb).
  assert (Hmin : Nat.min S (max_seq_len c) = max_seq_len c) by lia.
  split.
  - unfold build_attn_bias, bind, gets, buf_R, buf_B, assert, ret, raise, lift.
    destruct (alibi m); cbn - [broadcast2]; rewrite Hb; cbn - [broadcast2];
      rewrite ?Hb; cbn - [broadcast2]; unfold broadcast2, slice2, causal_template; cbn [d0 d1 d2 d3];
      rewrite Hmin, !bdim_same, bdim_one_l; cbn; eexists; split; try reflexivity; split; reflexivity.
  - intros H1 H2 Hx. unfold build_attn_bias, bind, gets, buf_R, buf_B, assert, ret, raise, lift.
    destruct (alibi m); cbn - [broadcast2 shape_is]; rewrite Hb; cbn - [broadcast2 shape_is];
      rewrite ?Hb; cbn - [broadcast2 shape_is]; rewrite Hx; unfold broadcast2, slice2, causal_template, unsqueeze_mask; cbn [d0 d1 d2 d3];
      rewrite Hmin, (bdim_neq (max_seq_len c) S) by lia;
      destruct (bdim 1 (length x)), (bdim (max_seq_len c) 1); reflexivity.
Qed.

(** ** Witnesses of the properties of the rest of the module *)

Lemma id_drop_shape x Bn S : shape2 x Bn S -> shape2 (id_drop x) Bn S.
Proof. exact (fun H => H). Qed.

Lemma id_attn_shape w x mask Bn S : shape2 x Bn S -> shape2 (id_attn w x mask) Bn S.
Proof. exact (fun H => H). Qed.

Lemma alibi_bias_row_witness :
  exists t t', alibi_bias 2 3 true 8%R = inr t /\ alibi_bias 2 3 false 8%R = inr t'
    /\ at4 t' 0 1 0 1 = at4 t 0 1 2 1.
Proof.
  do 2 eexists. split; [reflexivity|]. split; [reflexivity|].
  destruct (alibi_bias_row 2 3 8%R _ _ eq_refl eq_refl) as (_ & _ & _ & _ & Hrow).
  apply (Hrow 1 1). lia.
Defined.

Lemma build_attn_bias_shape_errors_witness :
  exists m, init cfg_ex params_ex = inr m
    /\ build_attn_bias 2 3 None (Some [[1; 1; 1]]%Z) m = inl AssertionError.
Proof.
  eexists; split; [reflexivity|].
  apply (proj1 (build_attn_bias_shape_errors cfg_ex params_ex _ 2 3 None (Some [[1; 1; 1]]%Z)
                  eq_refl) _ eq_refl).
  reflexivity.
Defined.

Lemma build_attn_bias_beyond_max_witness :
  exists m, init cfg_ex params_ex = inr m
    /\ build_attn_bias 1 6 None (Some [[1; 1; 1; 1; 1; 1]]%Z) m = inl RuntimeError.
Proof.
  eexists; split; [reflexivity|].
  apply (proj2 (build_attn_bias_beyond_max cfg_ex params_ex _ 1 6 None [[1; 1; 1; 1; 1; 1]]%Z
                  eq_refl ltac:(cbn; lia))); [cbn; lia | lia | reflexivity].
Defined.

Lemma forward_out_of_vocab_witness :
  forward id_ln id_gelu id_drop id_drop id_attn (mkIT [[0; 7]]%Z 2) None None None model_tied
  = inl IndexError.
Proof.
  apply (forward_out_of_vocab id_ln id_gelu id_drop id_drop id_attn (mkIT [[0; 7]]%Z 2) None None None
           model_tied 0 1); [vm_compute; lia | cbn; lia | cbn; lia |].
  right. vm_compute. discriminate.
Defined.

Lemma forward_output_shape_witness :
  exists logits bias,
    forward id_ln id_gelu id_drop id_drop id_attn (mkIT [[0; 2]]%Z 2) None None None model_tied
      = inr ((logits, bias), model_tied)
    /\ exists o, logits = A3 o /\ shape2 o 1 2.
Proof.
  eassert (Hf : forward id_ln id_gelu id_drop id_drop id_attn (mkIT [[0; 2]]%Z 2) None None None
                  model_tied = inr ((_, _), model_tied)).
  { cbv. reflexivity. }
  destruct (forward_output_shape id_ln id_gelu id_drop id_drop id_attn
              id_drop_shape id_drop_shape id_attn_shape
              (mkIT [[0; 2]]%Z 2) None None None model_tied _ _ _
              ltac:(split; [reflexivity | repeat constructor]) Hf) as (_ & o & Ho & Hs & _).
  do 2 eexists. split; [exact Hf|]. exists o. split; [exact Ho | exact Hs].
Defined.

Lemma composer_forward_loss_labels_witness :
  exists logits,
    composer_forward id_ln id_gelu id_drop id_drop id_attn
      (mkBatch (mkIT [[0; 2]]%Z 2) (Some [[2; -100]]%Z) None None) model_tied = inr (logits, model_tied)
    /\ get_targets (mkBatch (mkIT [[0; 2]]%Z 2) (Some [[2; -100]]%Z) None None) = inr (T1 [2%Z])
    /\ exists h : Hid, shape2 h 1 2.
Proof.
  eassert (Hf : composer_forward id_ln id_gelu id_drop id_drop id_attn
                  (mkBatch (mkIT [[0; 2]]%Z 2) (Some [[2; -100]]%Z) None None) model_tied
                = inr (_, model_tied)).
  { cbv. reflexivity. }
  destruct (composer_forward_loss_labels id_ln id_gelu id_drop id_drop id_attn
              id_drop_shape id_drop_shape id_attn_shape
              (mkBatch (mkIT [[0; 2]]%Z 2) (Some [[2; -100]]%Z) None None) [[2; -100]]%Z model_tied _ _
              ltac:(split; [reflexivity | repeat constructor]) eq_refl Hf)
    as (_ & _ & h & Hh & _).
  eexists. split; [exact Hf|]. split; [reflexivity|]. exists h. exact Hh.
Defined.

Lemma composer_forward_loss_next_token_witness :
  exists logits,
    composer_forward id_ln id_gelu id_drop id_drop id_attn
      (mkBatch (mkIT [[0; 2]]%Z 2) None None None) model_tied = inr (logits, model_tied)
    /\ exists h : Hid, shape2 h 1 2
         /\ logits = A3 (map_rows (linear_row (wte (params model_tied)) None) h).
Proof.
  eassert (Hf : composer_forward id_ln id_gelu id_drop id_drop id_attn
                  (mkBatch (mkIT [[0; 2]]%Z 2) None None None) model_tied = inr (_, model_tied)).
  { cbv. reflexivity. }
  destruct (composer_forward_loss_next_token id_ln id_gelu id_drop id_drop id_attn
              id_drop_shape id_drop_shape id_attn_shape
              (mkBatch (mkIT [[0; 2]]%Z 2) None None None) model_tied _ _
              ltac:(split; [reflexivity | repeat constructor]) ltac:(cbn; lia) eq_refl Hf)
    as (_ & h & Hh & Hl & _).
  eexists. split; [exact Hf|]. exists h. split; [exact Hh | exact Hl].
Defined.

Lemma torch_attention_mask_witness :
  exists m t (v : T3 ext), init cfg_ex params_ex = inr m
    /\ build_attn_bias 3 2 None None m = inr (t, m)
    /\ torch_attention_forward (fun x _ _ _ => x) [] t = [] /\ e0 v = 2.
Proof.
  eexists. destruct (torch_attention_mask cfg_ex params_ex _ 3 2 None None
                       (fun x _ _ _ => x) [] eq_refl ltac:(cbn; lia)
                       ltac:(discriminate) ltac:(discriminate))
    as (t & v & Et & Hfw & Hv & _).
  exists t, v. split; [reflexivity|]. split; [exact Et|]. split; [exact Hfw|].
  rewrite Hv. reflexivity.
Defined.

Lemma num_fwd_flops_zero_not_cached_witness :
  exists st, composer_init cfg_len0 params_ex = inr st
    /\ truthy (num_fwd_flops_cache (access_n 3 st)) = false
    /\ num_fwd_flops_cache (access_n 3 st) = Some 0.
Proof.
  eexists; split; [reflexivity|].
  destruct (num_fwd_flops_zero_not_cached cfg_len0 params_ex _ 3 eq_refl eq_refl) as [H1 H2].
  split; [exact H1 | apply H2; lia].
Defined.
